(** * atlite.gis: grids, shape reprojection, indicator matrices, regridding

    A shallow embedding of [atlite/gis.py].

    Conventions of the embedding.
    - Python floats are modelled by the canonical rationals [Qc]: arithmetic
      is exact, so every statement below is about the code's arithmetic
      without rounding; the float functions [sin] and [deg2rad] are an
      interface.
    - A Python call either returns a value or raises: [result A].
    - The external libraries (pyproj, GEOS/shapely, rasterio, the pandas
      clock) are interfaces (type classes); numpy, xarray and scipy.sparse
      are modelled as far as the module uses them. *)

From Stdlib Require Import QArith Qcanon Qround Qcabs Lqa.
From stdpp Require Import numbers gmap strings list fin_maps sorting.

Local Open Scope Qc_scope.
#[local] Set Warnings "-register-all".

(** ** Exceptions and results *)

(** The exceptions the modelled code paths can raise. *)
Inductive exn :=
  | KeyError
  | IndexError
  | ZeroDivisionError
  | AssertionError
  | NameError
  | ValueError
  | AttributeError
  | TypeError
  | CRSError.

(** The name of the exception's Python class. *)
Definition exn_name (e : exn) : string :=
  match e with
  | KeyError => "KeyError"
  | IndexError => "IndexError"
  | ZeroDivisionError => "ZeroDivisionError"
  | AssertionError => "AssertionError"
  | NameError => "NameError"
  | ValueError => "ValueError"
  | AttributeError => "AttributeError"
  | TypeError => "TypeError"
  | CRSError => "CRSError"
  end.

Inductive result (A : Type) :=
  | Ok (a : A)
  | Raise (e : exn).
Arguments Ok {A} a.
Arguments Raise {A} e.

#[export] Instance exn_eq_dec : EqDecision exn.
Proof. solve_decision. Defined.
#[export] Instance result_eq_dec `{EqDecision A} : EqDecision (result A).
Proof. solve_decision. Defined.

#[export] Instance result_ret : MRet result := @Ok.
#[export] Instance result_bind : MBind result :=
  λ A B f m, match m with Ok a => f a | Raise e => Raise e end.
#[export] Instance result_fmap : FMap result :=
  λ A B f m, match m with Ok a => Ok (f a) | Raise e => Raise e end.

(** [d[k]] on a dict: [KeyError] when the key is missing. *)
Definition getitem `{Countable K} {V} (d : gmap K V) (k : K) : result V :=
  match d !! k with
  | Some v => Ok v
  | None => Raise KeyError
  end.

(** [for a in l: acc = body(acc, a)], leaving the loop at the first
    exception. *)
Fixpoint for_each {A S} (body : S → A → result S) (l : list A) (acc : S)
    : result S :=
  match l with
  | [] => Ok acc
  | a :: l' => acc' ← body acc a; for_each body l' acc'
  end.

(** [enumerate(l)] *)
Definition enumerate {A} (l : list A) : list (nat * A) :=
  zip (seq 0 (length l)) l.

(** ** Numbers *)

Definition qc (q : Q) : Qc := Q2Qc q.
Definition Qc_of_nat (n : nat) : Qc := Qc_of_Z (Z.of_nat n).

(** ** numpy arrays *)

(** An n-dimensional array as nested lists: [Arr] along the first axis. *)
Inductive ndarray :=
  | Scalar (v : Qc)
  | Arr (items : list ndarray).

(** [numpy.arange(start, stop, step)]: [ceil((stop - start) / step)]
    elements [start + i * step]; none when that length is not positive.  The
    length is computed by a division, which raises for a zero step. *)
Definition arange_length (start stop step : Qc) : nat :=
  Z.to_nat (Qceiling ((stop - start) / step)%Qc).

Definition arange (start stop step : Qc) : result (list Qc) :=
  if decide (step = 0) then Raise ZeroDivisionError
  else
    Ok ((λ i, start + Qc_of_nat i * step)
          <$> seq 0 (arange_length start stop step)).

(** ** xarray datasets *)

(** A positional indexer of [isel]: the slices the module uses. *)
Inductive indexer :=
  | SliceRev                  (* slice(None, None, -1) *)
  | SliceRange (a b : nat).   (* slice(a, b) *)

Definition apply_indexer {A} (ix : indexer) (l : list A) : list A :=
  match ix with
  | SliceRev => reverse l
  | SliceRange a b => take (b - a) (drop a l)
  end.

(** A one-dimensional coordinate variable: the dimension it lies on and its
    labels.  The coordinate named like its dimension is that dimension's
    index. *)
Record Coord := { c_dim : string; c_values : list Qc }.

Record DataArray := {
  da_dims : list string;
  da_dtype : string;
  da_values : ndarray
}.

Inductive xr_kind := KDataset | KDataArray.

(** An [xr.Dataset]; an [xr.DataArray] with its coordinates is the same
    record with one data variable and kind [KDataArray]. *)
Record Dataset := {
  ds_kind : xr_kind;
  coords : gmap string Coord;
  data_vars : list (string * DataArray);
  attrs : list (string * string)
}.

(** [ds.indexes[name]] *)
Definition indexes (ds : Dataset) (name : string) : result (list Qc) :=
  match coords ds !! name with
  | Some c => if decide (c_dim c = name) then Ok (c_values c) else Raise KeyError
  | None => Raise KeyError
  end.

(** Indexing one variable: every axis whose dimension has an indexer is
    sliced by it. *)
Fixpoint nd_isel (ixs : gmap string indexer) (dims : list string)
    (a : ndarray) : ndarray :=
  match dims, a with
  | d :: dims', Arr items =>
      let items' := nd_isel ixs dims' <$> items in
      Arr (match ixs !! d with
           | Some ix => apply_indexer ix items'
           | None => items'
           end)
  | _, _ => a
  end.

Definition coord_isel (ixs : gmap string indexer) (c : Coord) : Coord :=
  match ixs !! c_dim c with
  | Some ix => {| c_dim := c_dim c; c_values := apply_indexer ix (c_values c) |}
  | None => c
  end.

Definition da_isel (ixs : gmap string indexer) (da : DataArray) : DataArray :=
  {| da_dims := da_dims da;
     da_dtype := da_dtype da;
     da_values := nd_isel ixs (da_dims da) (da_values da) |}.

(** [ds.isel(ixs)], the indexers given per dimension name. *)
Definition isel (ixs : gmap string indexer) (ds : Dataset) : Dataset :=
  {| ds_kind := ds_kind ds;
     coords := coord_isel ixs <$> coords ds;
     data_vars := prod_map id (da_isel ixs) <$> data_vars ds;
     attrs := attrs ds |}.

(** [Index.searchsorted] on an increasing index. *)
Definition searchsorted_left (idx : list Qc) (v : Qc) : nat :=
  length (filter (λ a, a < v) idx).
Definition searchsorted_right (idx : list Qc) (v : Qc) : nat :=
  length (filter (λ a, a ≤ v) idx).

(** [ds.sel(dim=slice(lo, hi))]: label slices include both bounds. *)
Definition label_slice (idx : list Qc) (lo hi : Qc) : indexer :=
  SliceRange (searchsorted_left idx lo) (searchsorted_right idx hi).

Definition sel_slice (dim : string) (lo hi : Qc) (ds : Dataset)
    : result Dataset :=
  idx ← indexes ds dim;
  mret (isel {[ dim := label_slice idx lo hi ]} ds).

(** ** [get_coords] *)

(** pandas' time axis: [pd.date_range(start="1979", end="now", freq=dt)]
    reads the clock. *)
Class Pandas := {
  date_range_1979_now : string → list Qc
}.

(** [sorted([a, b])] *)
Definition sorted2 (a b : Qc) : Qc * Qc :=
  if decide (b < a) then (b, a) else (a, b).

Section get_coords.
Context `{Pandas}.

Definition get_coords (x y time : Qc * Qc) (dx dy : Qc) (dt : string)
    : result Dataset :=
  let x := sorted2 x.1 x.2 in
  let y := sorted2 y.1 y.2 in
  xs ← arange (Qc_of_Z (-180)) (Qc_of_Z 180) dx;
  ys ← arange (Qc_of_Z (-90)) (Qc_of_Z 90) dy;
  let ts := date_range_1979_now dt in
  let ds := {| ds_kind := KDataset;
               coords := {[ "x" := {| c_dim := "x"; c_values := xs |};
                            "y" := {| c_dim := "y"; c_values := ys |};
                            "time" := {| c_dim := "time"; c_values := ts |} ]};
               data_vars := [];
               attrs := [] |} in
  let ds := {| ds_kind := ds_kind ds;
               coords := <["lon" := {| c_dim := "x"; c_values := xs |}]>
                         (<["lat" := {| c_dim := "y"; c_values := ys |}]>
                          (coords ds));
               data_vars := data_vars ds;
               attrs := attrs ds |} in
  ds ← sel_slice "x" x.1 x.2 ds;
  ds ← sel_slice "y" y.1 y.2 ds;
  sel_slice "time" time.1 time.2 ds.
End get_coords.

(** A clock frozen at 1979-01-01 03:00, timestamps in hours since 1979. *)
Definition frozen_clock : Pandas :=
  {| date_range_1979_now := λ _, Qc_of_nat <$> seq 0 4 |}.

(** ** [maybe_swap_spatial_dims] and [_as_transform] *)

#[export] Instance indexer_eq_dec : EqDecision indexer.
Proof. solve_decision. Defined.

(** [idx[[0, -1]]]: the first and the last label. *)
Definition first_last (idx : list Qc) : result (Qc * Qc) :=
  match head idx, last idx with
  | Some a, Some b => Ok (a, b)
  | _, _ => Raise IndexError
  end.

(** An axis is stored decreasing: its first label is greater than its last;
    ascending and descending axes are strictly monotone. *)
Definition stored_decreasing (idx : list Qc) : Prop :=
  match head idx, last idx with
  | Some a, Some b => b < a
  | _, _ => False
  end.
Definition stored_increasing (idx : list Qc) : Prop :=
  match head idx, last idx with
  | Some a, Some b => a < b
  | _, _ => False
  end.
#[export] Instance stored_decreasing_dec idx : Decision (stored_decreasing idx).
Proof. unfold stored_decreasing. destruct (head idx), (last idx); apply _. Defined.
#[export] Instance stored_increasing_dec idx : Decision (stored_increasing idx).
Proof. unfold stored_increasing. destruct (head idx), (last idx); apply _. Defined.
Definition ascending (idx : list Qc) : Prop := Sorted Qclt idx.
Definition descending (idx : list Qc) : Prop := Sorted (flip Qclt) idx.

Definition maybe_swap_spatial_dims (ds : Dataset) (namex namey : string)
    : result Dataset :=
  let swaps : gmap string indexer := ∅ in
  ix ← indexes ds namex;
  '(lx, rx) ← first_last ix;
  iy ← indexes ds namey;
  '(ly, uy) ← first_last iy;
  let swaps := if decide (rx < lx) then <[namex := SliceRev]> swaps else swaps in
  let swaps := if decide (uy < ly) then <[namey := SliceRev]> swaps else swaps in
  mret (if decide (swaps = ∅) then ds else isel swaps ds).

(** Float division: Python raises on a zero divisor. *)
Definition py_div (a b : Qc) : result Qc :=
  if decide (b = 0) then Raise ZeroDivisionError else Ok (a / b).

(** [affine.Affine(a, b, c, d, e, f)] *)
Record Affine := { af_a : Qc; af_b : Qc; af_c : Qc; af_d : Qc; af_e : Qc; af_f : Qc }.

(** [rasterio.transform.from_origin(west, north, xsize, ysize)] *)
Definition from_origin (west north xsize ysize : Qc) : Affine :=
  {| af_a := xsize; af_b := 0; af_c := west;
     af_d := 0; af_e := - ysize; af_f := north |}.

Definition _as_transform (x y : list Qc) : result Affine :=
  '(lx, rx) ← first_last x;
  '(ly, uy) ← first_last y;
  dx ← py_div (rx - lx) (Qc_of_nat (length x - 1));
  dy ← py_div (uy - ly) (Qc_of_nat (length y - 1));
  mret (from_origin lx uy dx dy).

(** ** [regrid] *)

(** A [pd.Index] with its name. *)
Record Index := { ix_name : string; ix_values : list Qc }.

(** The caller's keyword arguments that [regrid] reads or defaults. *)
Record UserKwargs := {
  kw_resampling : option string;
  kw_src_crs : option Z;
  kw_dst_crs : option Z
}.

(** The keyword arguments handed on to [rio.warp.reproject]. *)
Record WarpKwargs := {
  w_resampling : option string;
  w_dst_shape : nat * nat;
  w_src_transform : Affine;
  w_dst_transform : Affine;
  w_src_crs : Z;
  w_dst_crs : Z
}.

(** rasterio's resampling of one variable: given the variable's dimensions
    and which two of them are the core dimensions (y, x), the values
    [rio.warp.reproject] writes into [dst] for the source values, [dst]
    having the source's leading shape followed by [dst_shape]. *)
Class Rasterio := {
  warp_reproject : WarpKwargs → list string → string → string → ndarray → ndarray
}.

Section regrid.
Context `{Rasterio}.

(** [_reproject] under [xr.apply_ufunc] for one variable: the core
    dimensions must be present; [dst] is allocated with [dtype=src.dtype];
    the output's core dimensions are renamed back to the input's. *)
Definition apply_reproject (kw : WarpKwargs) (namey namex : string)
    (da : DataArray) : result DataArray :=
  if decide (namey ∈ da_dims da ∧ namex ∈ da_dims da) then
    Ok {| da_dims := filter (λ d, d ≠ namey ∧ d ≠ namex) (da_dims da)
                     ++ [namey; namex];
          da_dtype := da_dtype da;
          da_values := warp_reproject kw (da_dims da) namey namex (da_values da) |}
  else Raise ValueError.

Definition regrid (ds : Dataset) (dimx dimy : Index) (kwargs : UserKwargs)
    : result Dataset :=
  let namex := ix_name dimx in
  let namey := ix_name dimy in
  ds ← maybe_swap_spatial_dims ds namex namey;
  ix ← indexes ds namex;
  iy ← indexes ds namey;
  src_transform ← _as_transform ix iy;
  dst_transform ← _as_transform (ix_values dimx) (ix_values dimy);
  let dst_shape := (length (ix_values dimy), length (ix_values dimx)) in
  let kw := {| w_resampling := kw_resampling kwargs;
               w_dst_shape := dst_shape;
               w_src_transform := src_transform;
               w_dst_transform := dst_transform;
               w_src_crs := default 4326%Z (kw_src_crs kwargs);
               w_dst_crs := default 4326%Z (kw_dst_crs kwargs) |} in
  let data_vars_ :=
    match ds_kind ds with
    | KDataset => (data_vars ds).*2
    | KDataArray => (data_vars ds).*2
    end in
  let dtypes : gset string := list_to_set (da_dtype <$> data_vars_) in
  if decide (size dtypes = 1%nat) then
    out ← mapM (λ nv : string * DataArray,
                  da ← apply_reproject kw namey namex nv.2; mret (nv.1, da))
               (data_vars ds);
    mret {| ds_kind := ds_kind ds;
            coords :=
              <[namex := {| c_dim := namex; c_values := ix_values dimx |}]>
              (<[namey := {| c_dim := namey; c_values := ix_values dimy |}]>
               (filter (λ kc, c_dim kc.2 ≠ namey ∧ c_dim kc.2 ≠ namex)
                       (coords ds)));
            data_vars := out;
            attrs := attrs ds |}
  else Raise AssertionError.
End regrid.

(** ** Geometries *)

Definition point : Type := Qc * Qc.

(** A shapely polygon by its coordinates: exterior ring and interior rings. *)
Record Polygon := { shell : list point; holes : list (list point) }.

#[export] Instance Polygon_eq_dec : EqDecision Polygon.
Proof. solve_decision. Defined.

(** [shapely.ops.transform(func, geom)]: [func] applied to every coordinate,
    the rings kept as they are. *)
Definition transform (func : point → point) (geom : Polygon) : Polygon :=
  {| shell := func <$> shell geom;
     holes := (λ ring : list point, func <$> ring) <$> holes geom |}.

(** All coordinates of a polygon, ring after ring. *)
Definition vertices (geom : Polygon) : list point :=
  shell geom ++ mjoin (holes geom).

Record Box := { minx : Qc; miny : Qc; maxx : Qc; maxy : Qc }.

Definition Qcmin (a b : Qc) : Qc := if decide (a ≤ b) then a else b.
Definition Qcmax (a b : Qc) : Qc := if decide (a ≤ b) then b else a.

(** [geom.bounds]: none for a polygon without coordinates. *)
Definition envelope (geom : Polygon) : option Box :=
  match shell geom with
  | [] => None
  | p :: ps =>
      Some (foldl (λ b q, {| minx := Qcmin (minx b) q.1; miny := Qcmin (miny b) q.2;
                             maxx := Qcmax (maxx b) q.1; maxy := Qcmax (maxy b) q.2 |})
                  {| minx := p.1; miny := p.2; maxx := p.1; maxy := p.2 |} ps)
  end.

Definition boxes_intersect (a b : Box) : bool :=
  bool_decide (minx a ≤ maxx b ∧ minx b ≤ maxx a ∧
               miny a ≤ maxy b ∧ miny b ≤ maxy a).

Definition envelopes_intersect (g1 g2 : Polygon) : bool :=
  match envelope g1, envelope g2 with
  | Some a, Some b => boxes_intersect a b
  | _, _ => false
  end.

(** The GEOS operations the module calls on polygons. *)
Class GEOS := {
  area : Polygon → Qc;
  intersection_of : Polygon → Polygon → Polygon;   (* a.intersection(b) *)
  intersects : Polygon → Polygon → bool            (* a.intersects(b) *)
}.

(** Geometries that intersect have intersecting envelopes. *)
Definition intersects_in_envelopes `{GEOS} : Prop :=
  ∀ a b, intersects a b = true → envelopes_intersect a b = true.

(** pyproj: [Transformer.from_crs(crs1, crs2).transform], on one point;
    coordinate reference systems are given by their EPSG code. *)
Class Pyproj := {
  from_crs : Z → Z → result (point → point)
}.

(** A Python object holding a geometry: [id(o)] and the geometry. *)
Record PyObj := { obj_id : positive; obj_geom : Polygon }.

(** [STRtree(geoms).query(geom)]: the objects of the tree whose envelope
    intersects the envelope of [geom], in the tree's own order. *)
Class STRtree := {
  tree_query : list PyObj → Polygon → list PyObj
}.

(** What every such tree guarantees. *)
Definition tree_query_correct `{STRtree} : Prop :=
  ∀ geoms geom,
    tree_query geoms geom ≡ₚ
    filter (λ o, envelopes_intersect (obj_geom o) geom = true) geoms.

(** ** [reproject_shapes] *)

(** The collections of polygons the module distinguishes. *)
Inductive shapes :=
  | PdSeries (items : list (string * Polygon))      (* index label, value *)
  | PyDict (items : list (string * Polygon))        (* in insertion order *)
  | PyOrderedDict (items : list (string * Polygon))
  | PyList (items : list Polygon)
  | PyTuple (items : list Polygon).                 (* any other iterable *)

#[export] Instance shapes_eq_dec : EqDecision shapes.
Proof. solve_decision. Defined.

(** [d[k] = v] on an ordered dict: a present key keeps its position. *)
Fixpoint od_setitem {V} (k : string) (v : V) (items : list (string * V))
    : list (string * V) :=
  match items with
  | [] => [(k, v)]
  | (k', v') :: items' =>
      if decide (k = k') then (k, v) :: items'
      else (k', v') :: od_setitem k v items'
  end.

(** [OrderedDict(pairs)] *)
Definition OrderedDict {V} (pairs : list (string * V)) : list (string * V) :=
  foldl (λ d kv, od_setitem kv.1 kv.2 d) [] pairs.

(** A dict has each key once. *)
Definition shapes_wf (s : shapes) : Prop :=
  match s with
  | PyDict items | PyOrderedDict items => NoDup items.*1
  | _ => True
  end.

(** Observations of a collection: its index labels or keys (none for a
    list), its geometries in iteration order of the values, and its kind. *)
Definition shapes_labels (s : shapes) : list string :=
  match s with
  | PdSeries items | PyDict items | PyOrderedDict items => items.*1
  | PyList _ | PyTuple _ => []
  end.

Definition shapes_geoms (s : shapes) : list Polygon :=
  match s with
  | PdSeries items | PyDict items | PyOrderedDict items => items.*2
  | PyList items | PyTuple items => items
  end.

Inductive container := Sequence | Mapping | OtherIterable.

Definition shapes_container (s : shapes) : container :=
  match s with
  | PdSeries _ => Sequence
  | PyDict _ | PyOrderedDict _ => Mapping
  | PyList _ | PyTuple _ => OtherIterable
  end.

(** Two points, and two polygons vertex by vertex, agree within [eps]. *)
Definition close (eps : Qc) (p q : point) : Prop :=
  Qcabs (p.1 - q.1) ≤ eps ∧ Qcabs (p.2 - q.2) ≤ eps.

#[export] Instance close_dec eps p q : Decision (close eps p q).
Proof. unfold close. apply _. Defined.

Definition polygon_close (eps : Qc) (g g' : Polygon) : Prop :=
  Forall2 (close eps) (shell g) (shell g') ∧
  Forall2 (Forall2 (close eps)) (holes g) (holes g').

Section reproject_shapes.
Context `{Pyproj}.

Definition reproject_shapes (shapes_ : shapes) (crs1 crs2 : Z) : result shapes :=
  transformer ← from_crs crs1 crs2;
  let _reproject_shape := transform transformer in
  match shapes_ with
  | PdSeries items =>
      Ok (PdSeries (prod_map id _reproject_shape <$> items))
  | PyDict items | PyOrderedDict items =>
      Ok (PyOrderedDict
            (OrderedDict ((λ kv, (kv.1, _reproject_shape kv.2)) <$> items)))
  | PyList items | PyTuple items =>
      Ok (PyList (_reproject_shape <$> items))
  end.

(** The deprecated name; the warning has no effect on the result. *)
Definition reproject (shapes_ : shapes) (p1 p2 : Z) : result shapes :=
  reproject_shapes shapes_ p1 p2.

(** The call on a collection held in the object store: the argument is
    read, the result is a newly allocated object. *)
Definition reproject_shapes_at (h : gmap positive shapes) (l : positive)
    (crs1 crs2 : Z) : result (gmap positive shapes * positive) :=
  shapes_ ← getitem h l;
  out ← reproject_shapes shapes_ crs1 crs2;
  let l' := fresh (dom h) in
  mret (<[l' := out]> h, l').
End reproject_shapes.

(** ** [compute_indicatormatrix] *)

(** [scipy.sparse.lil_matrix]: the shape and the explicitly stored entries. *)
Record lil_matrix := {
  lil_shape : nat * nat;
  lil_entries : gmap (nat * nat) Qc
}.

#[export] Instance lil_matrix_eq_dec : EqDecision lil_matrix.
Proof. solve_decision. Defined.

Definition lil_new (shape : nat * nat) : lil_matrix :=
  {| lil_shape := shape; lil_entries := ∅ |}.

(** [m[i, j] = x]: scipy's [lil_insert] checks the bounds and stores no
    zero (a zero removes the entry). *)
Definition lil_setitem (m : lil_matrix) (i j : nat) (x : Qc) : result lil_matrix :=
  if decide (i < (lil_shape m).1 ∧ j < (lil_shape m).2)%nat then
    Ok {| lil_shape := lil_shape m;
          lil_entries := if decide (x = 0) then delete (i, j) (lil_entries m)
                         else <[(i, j) := x]> (lil_entries m) |}
  else Raise IndexError.

(** The [dest] argument: a [GeoDataFrame] stands for its geometry column. *)
Inductive dest_arg :=
  | GeoDataFrame (geometry : list (string * Polygon))
  | Shapes (s : shapes).

(** What iterating a collection yields: a Series and a list yield their
    geometries, a dict yields its keys. *)
Inductive pyval :=
  | VGeom (g : Polygon)
  | VKey (k : string).

Definition iter_shapes (s : shapes) : list pyval :=
  match s with
  | PdSeries items => (λ kv, VGeom kv.2) <$> items
  | PyDict items | PyOrderedDict items => (λ kv, VKey kv.1) <$> items
  | PyList items | PyTuple items => VGeom <$> items
  end.

(** [dest.geometry if isinstance(dest, gpd.GeoDataFrame) else dest] *)
Definition dest_shapes (dest : dest_arg) : shapes :=
  match dest with
  | GeoDataFrame geometry => PdSeries geometry
  | Shapes s => s
  end.

(** [dict((id(o), i) for i, o in enumerate(orig))]: a later pair replaces
    an earlier one with the same key. *)
Definition id_index (orig : list PyObj) : gmap positive nat :=
  foldl (λ idx io, <[obj_id io.2 := io.1]> idx) ∅ (enumerate orig).

Section compute_indicatormatrix.
Context `{Pyproj, GEOS, STRtree}.

(** The body of the inner loop, for the candidate [o] of the destination
    geometry [d] of row [i]. *)
Definition indicator_cell (idx : gmap positive nat) (i : nat) (d : Polygon)
    (indicator : lil_matrix) (o : PyObj) : result lil_matrix :=
  if intersects (obj_geom o) d then
    j ← getitem idx (obj_id o);
    let area_ := area (intersection_of d (obj_geom o)) in
    v ← py_div area_ (area (obj_geom o));
    lil_setitem indicator i j v
  else Ok indicator.

(** The body of the outer loop.  A key of a dict is no geometry: the query
    of a non-empty tree fails on it, an empty tree returns no candidate. *)
Definition indicator_row (orig : list PyObj) (idx : gmap positive nat)
    (indicator : lil_matrix) (id_ : nat * pyval) : result lil_matrix :=
  match id_.2 with
  | VGeom d =>
      for_each (indicator_cell idx id_.1 d) (tree_query orig d) indicator
  | VKey _ =>
      match orig with
      | [] => Ok indicator
      | _ => Raise AttributeError
      end
  end.

Definition compute_indicatormatrix (orig : list PyObj) (dest : dest_arg)
    (orig_crs dest_crs : Z) : result lil_matrix :=
  let dest := dest_shapes dest in
  dest ← reproject_shapes dest dest_crs orig_crs;
  let dest := iter_shapes dest in
  let indicator := lil_new (length dest, length orig) in
  let idx := id_index orig in
  for_each (indicator_row orig idx) (enumerate dest) indicator.
End compute_indicatormatrix.

(** The invariant of the matrix under construction: its shape, and a
    property of every stored entry. *)
Definition lil_inv (P : Qc → Prop) (shape : nat * nat) (m : lil_matrix) : Prop :=
  lil_shape m = shape ∧ ∀ k v, lil_entries m !! k = Some v → P v.

(** ** [grid_cell_areas] *)

(** The attributes of a cutout that the function reads. *)
Record Cutout := {
  cutout_crs : Z;
  cutout_y : list Qc;               (* coords['y'] *)
  cutout_dx : Qc;
  cutout_dy : Qc;
  cutout_shape : nat * nat;         (* (len(y), len(x)) *)
  cutout_grid_cells : list Polygon
}.

(** [xarray.ufuncs]: the float functions. *)
Class Ufuncs := {
  xu_sin : Qc → Qc;
  xu_deg2rad : Qc → Qc
}.

(** What a module-level name of [gis.py] is bound to. *)
Inductive pyobject :=
  | OModule
  | OFunction
  | OClass
  | OLogger
  | OFloat (v : Qc).

(** The module's global names: its imports and its definitions.  (No builtin
    is called [dx] either.) *)
Definition gis_globals : gmap string pyobject :=
  list_to_map
    [("np", OModule); ("pd", OModule); ("xr", OModule); ("xu", OModule);
     ("sp", OModule); ("scipy", OModule); ("OrderedDict", OClass);
     ("warn", OFunction); ("partial", OClass); ("CRS", OClass);
     ("Transformer", OClass); ("gpd", OModule); ("transform", OFunction);
     ("rio", OModule); ("rasterio", OModule); ("STRtree", OClass);
     ("logging", OModule); ("logger", OLogger);
     ("get_coords", OFunction); ("spdiag", OFunction);
     ("reproject_shapes", OFunction); ("reproject", OFunction);
     ("grid_cell_areas", OFunction); ("compute_indicatormatrix", OFunction);
     ("maybe_swap_spatial_dims", OFunction); ("_as_transform", OFunction);
     ("regrid", OFunction)].

(** Reading a name that the function never assigns: a global lookup. *)
Definition load_global (name : string) : result pyobject :=
  match gis_globals !! name with
  | Some o => Ok o
  | None => Raise NameError
  end.

Definition as_float (o : pyobject) : result Qc :=
  match o with
  | OFloat v => Ok v
  | _ => Raise TypeError
  end.

(** [np.array(l).reshape(shape)] for a two-dimensional shape. *)
Fixpoint chunks {A} (rows n : nat) (l : list A) : list (list A) :=
  match rows with
  | O => []
  | S rows' => take n l :: chunks rows' n (drop n l)
  end.

Definition reshape2 (shape : nat * nat) (l : list Qc) : result ndarray :=
  if decide (length l = shape.1 * shape.2)%nat then
    Ok (Arr ((λ row : list Qc, Arr (Scalar <$> row)) <$> chunks shape.1 shape.2 l))
  else Raise ValueError.

Section grid_cell_areas.
Context `{Pyproj, GEOS, Ufuncs}.

Definition grid_cell_areas (cutout : Cutout) : result DataArray :=
  if decide (cutout_crs cutout = 4326%Z) then
    let y := cutout_y cutout in
    let dy := cutout_dy cutout in
    let R := Qc_of_Z 6371 in
    dx ← load_global "dx" ≫= as_float;
    let area_km2 :=
      (λ y, R ^ 2 * xu_deg2rad dx *
            Qcabs (xu_sin (xu_deg2rad (y + dy / 2)) -
                   xu_sin (xu_deg2rad (y - dy / 2)))) <$> y in
    mret {| da_dims := ["y"]; da_dtype := "float64";
            da_values := Arr (Scalar <$> area_km2) |}
  else
    grid_cells ← reproject_shapes (PyList (cutout_grid_cells cutout))
                                  (cutout_crs cutout) 3035;
    let areas := match grid_cells with
                 | PyList cs => (λ c, area c / Qc_of_Z 1000000) <$> cs
                 | _ => []
                 end in
    values ← reshape2 (cutout_shape cutout) areas;
    mret {| da_dims := ["y"; "x"]; da_dtype := "float64"; da_values := values |}.

(** The value the analytic formula has for a latitude [y], with the
    grid's own steps. *)
Definition spherical_cap_area (dx dy y : Qc) : Qc :=
  Qc_of_Z 6371 ^ 2 * xu_deg2rad dx *
  Qcabs (xu_sin (xu_deg2rad (y + dy / 2)) - xu_sin (xu_deg2rad (y - dy / 2))).
End grid_cell_areas.

(** ** Implementations of the interfaces, for running the model *)

(** The signed double area of a ring (shoelace formula). *)
Fixpoint shoelace (ring : list point) : Qc :=
  match ring with
  | p :: (q :: _) as ring' => p.1 * q.2 - q.1 * p.2 + shoelace ring'
  | _ => 0
  end.

Definition ring_area (ring : list point) : Qc :=
  Qcabs (shoelace (ring ++ take 1 ring)) / 2.

Definition box_polygon (b : Box) : Polygon :=
  {| shell := [(minx b, miny b); (maxx b, miny b); (maxx b, maxy b);
               (minx b, maxy b); (minx b, miny b)];
     holes := [] |}.

Definition empty_polygon : Polygon := {| shell := []; holes := [] |}.

(** GEOS on axis-aligned rectangles without holes: there a geometry is its
    envelope, so intersection and the intersection test are those of the
    envelopes; the area is the shoelace area. *)
Definition rect_geos : GEOS :=
  {| area := λ g, ring_area (shell g) - foldr Qcplus 0 (ring_area <$> holes g);
     intersection_of := λ a b,
       match envelope a, envelope b with
       | Some ea, Some eb =>
           if boxes_intersect ea eb then
             box_polygon {| minx := Qcmax (minx ea) (minx eb);
                            miny := Qcmax (miny ea) (miny eb);
                            maxx := Qcmin (maxx ea) (maxx eb);
                            maxy := Qcmin (maxy ea) (maxy eb) |}
           else empty_polygon
       | _, _ => empty_polygon
       end;
     intersects := envelopes_intersect |}.

(** A tree that scans its geometries in insertion order. *)
Definition scan_tree : STRtree :=
  {| tree_query := λ geoms geom,
       filter (λ o, envelopes_intersect (obj_geom o) geom = true) geoms |}.

(** A pyproj over reference systems that share their axes and differ in the
    unit of length: [unit_of code] is the unit of the system with that code,
    none when the code is unknown.  A transform between two equal codes is
    the identity. *)
Definition unit_pyproj (unit_of : Z → option Qc) : Pyproj :=
  {| from_crs := λ crs1 crs2,
       match unit_of crs1, unit_of crs2 with
       | Some u1, Some u2 =>
           if decide (u2 = 0) then Raise CRSError
           else Ok (λ p : point, (p.1 * u1 / u2, p.2 * u1 / u2))
       | _, _ => Raise CRSError
       end |}.

(** Degrees (EPSG:4326) and, under the code 1, arc minutes. *)
Definition degrees_minutes (code : Z) : option Qc :=
  if decide (code = 4326%Z) then Some 1
  else if decide (code = 1%Z) then Some (qc (1 # 60))
  else None.

(** The rectangle [[x0, x1] x [y0, y1]]. *)
Definition rectangle (x0 x1 y0 y1 : Q) : Polygon :=
  box_polygon {| minx := qc x0; miny := qc y0; maxx := qc x1; maxy := qc y1 |}.

Definition unit_squares : list PyObj :=
  [ {| obj_id := 1; obj_geom := rectangle 0 1 0 1 |};
    {| obj_id := 2; obj_geom := rectangle 1 2 0 1 |};
    {| obj_id := 3; obj_geom := rectangle 2 3 0 1 |} ].

(** ** Datasets for running the model *)

Definition grid2x2 (xs ys : list Qc) (dtypes : list (string * string)) : Dataset :=
  {| ds_kind := KDataset;
     coords := {[ "x" := {| c_dim := "x"; c_values := xs |};
                  "y" := {| c_dim := "y"; c_values := ys |} ]};
     data_vars :=
       (λ nt : string * string,
          (nt.1, {| da_dims := ["y"; "x"]; da_dtype := nt.2;
                    da_values := Arr [Arr [Scalar (qc 1); Scalar (qc 2)];
                                      Arr [Scalar (qc 3); Scalar (qc 4)]] |}))
         <$> dtypes;
     attrs := [] |}.

(** Stored as a north-up raster: x ascending, y descending. *)
Definition north_up : Dataset :=
  grid2x2 [qc 0; qc 1] [qc 1; qc 0] [("t2m", "float64")].

(** Both axes ascending. *)
Definition south_up : Dataset :=
  grid2x2 [qc 0; qc 1] [qc 0; qc 1] [("t2m", "float64")].

(** Two variables of different element types on one grid. *)
Definition mixed_dtypes : Dataset :=
  grid2x2 [qc 0; qc 1] [qc 0; qc 1] [("t2m", "float64"); ("mask", "int32")].

(** Two variables of one element type. *)
Definition same_dtypes : Dataset :=
  grid2x2 [qc 0; qc 1] [qc 0; qc 1] [("t2m", "float64"); ("u10", "float64")].

(** rasterio between identical source and destination grids, with a kernel
    that preserves values there. *)
Definition same_grid_rasterio : Rasterio :=
  {| warp_reproject := λ _ _ _ _ src, src |}.

Definition no_kwargs : UserKwargs :=
  {| kw_resampling := None; kw_src_crs := None; kw_dst_crs := None |}.

(** Degrees to arc minutes and back, as [unit_pyproj degrees_minutes]
    transforms between the codes 4326 and 1. *)
Definition to_minutes (p : point) : point :=
  (p.1 * 1 / qc (1 # 60), p.2 * 1 / qc (1 # 60)).
Definition to_degrees (p : point) : point :=
  (p.1 * qc (1 # 60) / 1, p.2 * qc (1 # 60) / 1).

(** Two regions keyed by name. *)
Definition regions : shapes :=
  PyDict [("north", rectangle 0 2 1 2); ("south", rectangle 0 2 0 1)].

(** The destination square of the example, and an origin collection with a
    degenerate polygon: the segment from (1, 0) to (1, 1) as a ring. *)
Definition wide_square : Polygon := rectangle (1 # 2) (5 # 2) 0 1.

Definition squares_and_segment : list PyObj :=
  [ {| obj_id := 1; obj_geom := rectangle 0 1 0 1 |};
    {| obj_id := 2; obj_geom := rectangle 1 1 0 1 |};
    {| obj_id := 3; obj_geom := rectangle 1 2 0 1 |} ].

(** Float functions by their series: pi as 355/113, the sine by its Taylor
    polynomial of degree 5. *)
Definition series_ufuncs : Ufuncs :=
  {| xu_sin := λ x, x - x ^ 3 / Qc_of_Z 6 + x ^ 5 / Qc_of_Z 120;
     xu_deg2rad := λ x, x * qc (355 # 113) / Qc_of_Z 180 |}.

(** A geographic cutout of one cell of 1 degree by 1 degree, centred at the
    equator. *)
Definition equator_cell : Cutout :=
  {| cutout_crs := 4326;
     cutout_y := [Qc_of_Z 0];
     cutout_dx := 1;
     cutout_dy := 1;
     cutout_shape := (1%nat, 1%nat);
     cutout_grid_cells := [rectangle (-1 # 2) (1 # 2) (-1 # 2) (1 # 2)] |}.


(** * Further code of the module *)

(** The points of [numpy.arange(start, stop, step)] for a non-zero step. *)
Definition lattice (start stop step : Qc) : list Qc :=
  (λ i, start + Qc_of_nat i * step) <$> seq 0 (arange_length start stop step).

(** The labels from [lo] to [hi], both included. *)
Definition within (lo hi : Qc) (v : Qc) : Prop := lo ≤ v ∧ v ≤ hi.

#[export] Instance within_dec lo hi v : Decision (within lo hi v).
Proof. unfold within. apply _. Defined.



(** The quotient that [compute_indicatormatrix] stores for a destination
    geometry [d] and an origin object [o]. *)
Definition area_share `{GEOS} (d : Polygon) (o : PyObj) : Qc :=
  area (intersection_of d (obj_geom o)) / area (obj_geom o).

(** ** [spdiag] *)

(** A signed 32-bit integer: the value of [z] after wrap-around. *)
Definition wrap32 (z : Z) : Z := ((z + 2 ^ 31) mod 2 ^ 32 - 2 ^ 31)%Z.

(** [numpy.arange(n, dtype=numpy.int32)]. *)
Definition arange_int32 (n : nat) : list Z :=
  (λ i, wrap32 (Z.of_nat i)) <$> seq 0 n.

(** A matrix in compressed sparse row format, as the three arrays that
    [scipy.sparse.csr_matrix((data, indices, indptr), shape)] keeps. *)
Record csr_matrix := {
  csr_data : list Qc;
  csr_indices : list Z;
  csr_indptr : list Z;
  csr_shape : nat * nat
}.

(** The constructor and the checks of the format that it makes. *)
Definition csr_new (data : list Qc) (indices indptr : list Z)
    (shape : nat * nat) : result csr_matrix :=
  if decide (length indptr ≠ S shape.1) then Raise ValueError
  else if decide (indptr !! 0%nat ≠ Some 0%Z) then Raise ValueError
  else if decide (length indices ≠ length data) then Raise ValueError
  else if decide (Z.of_nat (length indices) < default 0%Z (last indptr))%Z
  then Raise ValueError
  else Ok {| csr_data := data; csr_indices := indices;
             csr_indptr := indptr; csr_shape := shape |}.

Definition spdiag (v : list Qc) : result csr_matrix :=
  let N := length v in
  let inds := arange_int32 (N + 1) in
  csr_new v (take (length inds - 1) inds) inds (N, N).

(** The stored entries of row [i]: the columns [indices[indptr[i]:indptr[i+1]]]
    with the values [data[indptr[i]:indptr[i+1]]]. *)
Definition csr_row (m : csr_matrix) (i : nat) : list (Z * Qc) :=
  match csr_indptr m !! i, csr_indptr m !! S i with
  | Some a, Some b =>
      take (Z.to_nat b - Z.to_nat a)
           (drop (Z.to_nat a) (zip (csr_indices m) (csr_data m)))
  | _, _ => []
  end.

Definition Qcsum (l : list Qc) : Qc := foldr Qcplus 0 l.

(** [m.dot(x)] for a vector [x]. *)
Definition csr_dot (m : csr_matrix) (x : list Qc) : result (list Qc) :=
  if decide (length x = (csr_shape m).2) then
    Ok ((λ i, Qcsum ((λ p : Z * Qc, p.2 * default 0 (x !! Z.to_nat p.1))
                       <$> csr_row m i))
          <$> seq 0 (csr_shape m).1)
  else Raise ValueError.

(** ** Further data for running the model *)

(** The grid of 90 degree steps from 90 west to 90 east at the equator, over
    the first three hours of 1979. *)
Definition coarse_grid : Dataset :=
  {| ds_kind := KDataset;
     coords := {[ "x" := {| c_dim := "x"; c_values := [qc (-90); qc 0; qc 90] |};
                  "y" := {| c_dim := "y"; c_values := [qc 0] |};
                  "time" := {| c_dim := "time"; c_values := [Qc_of_Z 0; Qc_of_Z 1; Qc_of_Z 2] |};
                  "lon" := {| c_dim := "x"; c_values := [qc (-90); qc 0; qc 90] |};
                  "lat" := {| c_dim := "y"; c_values := [qc 0] |} ]};
     data_vars := [];
     attrs := [] |}.

(** The north-up raster after its y axis is reversed. *)
Definition north_up_flipped : Dataset := isel {[ "y" := SliceRev ]} north_up.

(** A grid of one column: a single x label. *)
Definition single_column : Dataset :=
  {| ds_kind := KDataset;
     coords := {[ "x" := {| c_dim := "x"; c_values := [qc 0] |};
                  "y" := {| c_dim := "y"; c_values := [qc 0; qc 1] |} ]};
     data_vars :=
       [("t2m", {| da_dims := ["y"; "x"]; da_dtype := "float64";
                   da_values := Arr [Arr [Scalar (qc 1)]; Arr [Scalar (qc 3)]] |})];
     attrs := [] |}.

(** A grid whose only variable lies on the y axis alone. *)
Definition with_profile : Dataset :=
  {| ds_kind := KDataset;
     coords := {[ "x" := {| c_dim := "x"; c_values := [qc 0; qc 1] |};
                  "y" := {| c_dim := "y"; c_values := [qc 0; qc 1] |} ]};
     data_vars :=
       [("height", {| da_dims := ["y"]; da_dtype := "float64";
                      da_values := Arr [Scalar (qc 1); Scalar (qc 2)] |})];
     attrs := [] |}.

(** The target axes of the examples. *)
Definition target_x : Index := {| ix_name := "x"; ix_values := [qc 0; qc 1] |}.
Definition target_y : Index := {| ix_name := "y"; ix_values := [qc 0; qc 1] |}.

(** The matrix of the three unit squares under the wide square, and a square
    away from all of them. *)
Definition half_one_half : lil_matrix :=
  {| lil_shape := (1%nat, 3%nat);
     lil_entries := {[ (0%nat, 0%nat) := qc (1 # 2);
                       (0%nat, 1%nat) := qc 1;
                       (0%nat, 2%nat) := qc (1 # 2) ]} |}.

Definition far_square : Polygon := rectangle 5 6 0 1.

(** Metres (EPSG:3035) and, under the code 1, kilometres. *)
Definition metres_kilometres (code : Z) : option Qc :=
  if decide (code = 3035%Z) then Some 1
  else if decide (code = 1%Z) then Some (qc 1000)
  else None.

Definition to_metres (p : point) : point :=
  (p.1 * qc 1000 / 1, p.2 * qc 1000 / 1).


Definition km_cells_two_rows : Cutout :=
  {| cutout_crs := 1;
     cutout_y := [qc (1 # 2); qc (3 # 2)];
     cutout_dx := 1;
     cutout_dy := 1;
     cutout_shape := (2%nat, 2%nat);
     cutout_grid_cells := [rectangle 0 1 0 1; rectangle 1 2 0 1] |}.

(** The diagonal matrix of 2 and 3. *)
Definition diag_2_3 : csr_matrix :=
  {| csr_data := [qc 2; qc 3];
     csr_indices := [0%Z; 1%Z];
     csr_indptr := [0%Z; 1%Z; 2%Z];
     csr_shape := (2%nat, 2%nat) |}.
(** * Properties *)

(** ** Results *)

Lemma bind_Ok {A B} (f : A → result B) (m : result A) (b : B) :
  m ≫= f = Ok b ↔ ∃ a, m = Ok a ∧ f a = Ok b.
Proof.
  destruct m as [a|e]; simpl; split.
  - eauto.
  - by intros (a' & [= <-] & ?).
  - done.
  - by intros (? & ? & ?).
Qed.

Lemma exn_name_inj e1 e2 : exn_name e1 = exn_name e2 → e1 = e2.
Proof. by destruct e1, e2. Qed.

(** ** [numpy.arange] *)

Lemma arange_Ok start stop step :
  step ≠ 0 →
  arange start stop step =
  Ok ((λ i, start + Qc_of_nat i * step) <$> seq 0 (arange_length start stop step)).
Proof. intros. unfold arange. by rewrite decide_False. Qed.

Lemma arange_zero_step start stop : arange start stop 0 = Raise ZeroDivisionError.
Proof. done. Qed.

(** Inequalities over [Qc] are decided over [Q]. *)
Ltac qc_to_q :=
  unfold Qcle, Qclt, Qcminus, Qcdiv, Qcplus, Qcmult, Qcopp, Qcinv, Q2Qc in *;
  simpl this in *; rewrite ?Qred_correct in *.

Lemma Qclt_ne (x y : Qc) : x < y → y ≠ x.
Proof. intros Hlt ->. by apply Qclt_not_eq in Hlt. Qed.







(** ** Datasets *)

Lemma indexes_isel ixs ds name idx :
  indexes ds name = Ok idx →
  indexes (isel ixs ds) name =
  Ok (match ixs !! name with Some ix => apply_indexer ix idx | None => idx end).
Proof.
  unfold indexes, isel. simpl. rewrite lookup_fmap.
  destruct (coords ds !! name) as [c|]; [simpl|done].
  case_decide as Hc; [|done]. intros [= <-].
  unfold coord_isel. rewrite Hc.
  destruct (ixs !! name); simpl; by rewrite decide_True.
Qed.

Lemma sel_slice_Ok dim lo hi ds idx :
  indexes ds dim = Ok idx →
  sel_slice dim lo hi ds = Ok (isel {[ dim := label_slice idx lo hi ]} ds).
Proof. intros Hidx. unfold sel_slice. by rewrite Hidx. Qed.

Lemma sel_slice_indexes_eq dim lo hi ds idx :
  indexes ds dim = Ok idx →
  ∃ ds', sel_slice dim lo hi ds = Ok ds' ∧
         indexes ds' dim = Ok (apply_indexer (label_slice idx lo hi) idx).
Proof.
  intros Hidx. eexists. split; [by apply sel_slice_Ok|].
  erewrite indexes_isel by done. by rewrite lookup_singleton_eq.
Qed.

Lemma sel_slice_indexes_ne dim lo hi ds ds' name r :
  name ≠ dim → sel_slice dim lo hi ds = Ok ds' →
  indexes ds name = Ok r → indexes ds' name = Ok r.
Proof.
  intros Hne Hsel Hr. unfold sel_slice in Hsel.
  apply bind_Ok in Hsel as (idx & Hidx & [= <-]).
  erewrite indexes_isel by done. by rewrite lookup_singleton_ne.
Qed.


(** ** [get_coords] *)

Section get_coords_facts.
Context `{Pandas}.

Lemma get_coords_Ok x y time dx dy dt xs ys :
  arange (Qc_of_Z (-180)) (Qc_of_Z 180) dx = Ok xs →
  arange (Qc_of_Z (-90)) (Qc_of_Z 90) dy = Ok ys →
  ∃ ds, get_coords x y time dx dy dt = Ok ds ∧
    indexes ds "x" =
      Ok (apply_indexer (label_slice xs (sorted2 x.1 x.2).1 (sorted2 x.1 x.2).2) xs) ∧
    indexes ds "y" =
      Ok (apply_indexer (label_slice ys (sorted2 y.1 y.2).1 (sorted2 y.1 y.2).2) ys).
Proof.
  intros Hxs Hys. unfold get_coords. rewrite Hxs, Hys. simpl.
  match goal with |- context [sel_slice "x" _ _ ?d] => set (ds0 := d) end.
  assert (indexes ds0 "x" = Ok xs) as Hx0
    by (unfold indexes, ds0; by vm_compute).
  assert (indexes ds0 "y" = Ok ys) as Hy0
    by (unfold indexes, ds0; by vm_compute).
  assert (indexes ds0 "time" = Ok (date_range_1979_now dt)) as Ht0
    by (unfold indexes, ds0; simpl; by simplify_map_eq).
  destruct (sel_slice_indexes_eq "x" (sorted2 x.1 x.2).1 (sorted2 x.1 x.2).2 _ _ Hx0)
    as (ds1 & Hsel1 & Hx1).
  rewrite Hsel1. simpl.
  pose proof (sel_slice_indexes_ne "x" _ _ _ _ "y" _ ltac:(done) Hsel1 Hy0) as Hy1.
  pose proof (sel_slice_indexes_ne "x" _ _ _ _ "time" _ ltac:(done) Hsel1 Ht0) as Ht1.
  destruct (sel_slice_indexes_eq "y" (sorted2 y.1 y.2).1 (sorted2 y.1 y.2).2 _ _ Hy1)
    as (ds2 & Hsel2 & Hy2).
  rewrite Hsel2. simpl.
  pose proof (sel_slice_indexes_ne "y" _ _ _ _ "x" _ ltac:(done) Hsel2 Hx1) as Hx2.
  pose proof (sel_slice_indexes_ne "y" _ _ _ _ "time" _ ltac:(done) Hsel2 Ht1) as Ht2.
  destruct (sel_slice_indexes_eq "time" time.1 time.2 _ _ Ht2)
    as (ds3 & Hsel3 & Ht3).
  exists ds3. split; [done|]. split.
  - by apply (sel_slice_indexes_ne "time" time.1 time.2 ds2).
  - by apply (sel_slice_indexes_ne "time" time.1 time.2 ds2).
Qed.
End get_coords_facts.





Section get_coords_claims.
Context `{Pandas}.

Lemma get_coords_zero_step x y time dx dy dt :
  dx = 0 ∨ dy = 0 → get_coords x y time dx dy dt = Raise ZeroDivisionError.
Proof.
  intros [-> | ->]; unfold get_coords; simpl; [done|].
  unfold arange at 1. by case_decide.
Qed.


End get_coords_claims.




(** ** [maybe_swap_spatial_dims] *)

Lemma nd_isel_empty dims a : nd_isel ∅ dims a = a.
Proof.
  revert a. induction dims as [|d dims IH]; intros [v|items]; try done.
  simpl. rewrite lookup_empty. f_equal.
  induction items as [|a items IHitems]; [done|].
  csimpl. by f_equal.
Qed.

Lemma isel_empty ds : isel ∅ ds = ds.
Proof.
  destruct ds as [k cs dvs ats]. unfold isel. simpl. f_equal.
  - rewrite <-(map_fmap_id cs) at 2. apply map_fmap_ext.
    intros name c _. unfold coord_isel. by rewrite lookup_empty.
  - induction dvs as [|[n [dims ty vals]] dvs IH]; [done|].
    csimpl. f_equal; [|done]. unfold da_isel, prod_map. simpl.
    by rewrite nd_isel_empty.
Qed.

Lemma first_last_Ok (idx : list Qc) :
  idx ≠ [] → ∃ a b, head idx = Some a ∧ last idx = Some b ∧
                    first_last idx = Ok (a, b).
Proof.
  intros Hne. unfold first_last.
  destruct (head idx) as [a|] eqn:Ha; [|by apply head_None in Ha].
  destruct (last idx) as [b|] eqn:Hb; [|by apply last_None in Hb].
  by exists a, b.
Qed.

Lemma sorted_head_last (R : relation Qc) `{!Transitive R} idx a b :
  Sorted R idx → head idx = Some a → last idx = Some b → a = b ∨ R a b.
Proof.
  intros Hs%Sorted_StronglySorted Ha Hb; [|done].
  destruct idx as [|x idx]; [done|]. injection Ha as ->.
  apply StronglySorted_cons in Hs as [Hall _].
  destruct idx as [|y idx]; [left; by injection Hb|].
  right. rewrite last_cons_cons in Hb.
  rewrite Forall_forall in Hall. apply Hall.
  by apply last_Some_elem_of.
Qed.

Lemma isel_or_same swaps ds :
  (if decide (swaps = ∅) then ds else isel swaps ds) = isel swaps ds.
Proof. case_decide as Hs; [|done]. by rewrite Hs, isel_empty. Qed.

(** What [maybe_swap_spatial_dims] does: the dataset is indexed by [swaps],
    which reverses the axes whose first label exceeds the last. *)
Lemma maybe_swap_spatial_dims_Ok ds namex namey xs ys lx rx ly uy :
  indexes ds namex = Ok xs → indexes ds namey = Ok ys →
  head xs = Some lx → last xs = Some rx →
  head ys = Some ly → last ys = Some uy →
  maybe_swap_spatial_dims ds namex namey =
  Ok (isel ((if decide (uy < ly) then <[namey := SliceRev]> else id)
              ((if decide (rx < lx) then <[namex := SliceRev]> else id) ∅)) ds).
Proof.
  intros Hx Hy Hlx Hrx Hly Huy. unfold maybe_swap_spatial_dims, first_last.
  rewrite Hx. simpl. rewrite Hlx, Hrx. simpl.
  rewrite Hy. simpl. rewrite Hly, Huy. simpl.
  f_equal. rewrite isel_or_same.
  by destruct (decide (rx < lx)), (decide (uy < ly)).
Qed.

Lemma reverse_orients (idx : list Qc) :
  let idx' := if decide (stored_decreasing idx) then reverse idx else idx in
  ¬ stored_decreasing idx' ∧ (ascending idx ∨ descending idx → ascending idx').
Proof.
  simpl. case_decide as Hdec.
  - split.
    + unfold stored_decreasing in *. rewrite head_reverse, last_reverse.
      destruct (head idx) as [a|], (last idx) as [b|]; try done.
      by apply Qcle_not_lt, Qclt_le_weak.
    + intros [Hasc|Hdesc].
      * exfalso. unfold stored_decreasing in Hdec.
        destruct (head idx) as [a|] eqn:Ha, (last idx) as [b|] eqn:Hb; try done.
        destruct (sorted_head_last Qclt idx a b Hasc Ha Hb) as [->|Hlt].
        -- by apply Qclt_not_eq in Hdec.
        -- by apply Qclt_not_le in Hdec; apply Hdec, Qclt_le_weak.
      * by apply (Sorted_reverse (flip Qclt)) in Hdesc.
  - split; [done|]. intros [Hasc|Hdesc]; [done|].
    unfold stored_decreasing in Hdec.
    destruct idx as [|a idx]; [constructor|].
    destruct idx as [|a' idx]; [by repeat constructor|].
    exfalso. destruct (last (a :: a' :: idx)) as [b|] eqn:Hb;
      [|by apply last_None in Hb].
    simpl in Hdec.
    destruct (sorted_head_last (flip Qclt) _ a b Hdesc eq_refl Hb) as [->|Hlt];
      [|done].
    apply Sorted_StronglySorted in Hdesc; [|apply _].
    apply StronglySorted_cons in Hdesc as [Hall _].
    rewrite Forall_forall in Hall.
    rewrite last_cons_cons in Hb. apply last_Some_elem_of in Hb.
    apply Hall in Hb. by apply Qclt_not_eq in Hb.
Qed.

(** The indexers of the call: reversals of the axes stored decreasing. *)
Lemma maybe_swap_spatial_dims_swaps ds namex namey xs ys :
  namex ≠ namey →
  indexes ds namex = Ok xs → indexes ds namey = Ok ys →
  xs ≠ [] → ys ≠ [] →
  ∃ swaps,
    maybe_swap_spatial_dims ds namex namey = Ok (isel swaps ds) ∧
    swaps !! namex = (if decide (stored_decreasing xs) then Some SliceRev else None) ∧
    swaps !! namey = (if decide (stored_decreasing ys) then Some SliceRev else None) ∧
    (∀ d ix, swaps !! d = Some ix → ix = SliceRev ∧ (d = namex ∨ d = namey)) ∧
    (¬ stored_decreasing xs → ¬ stored_decreasing ys → swaps = ∅).
Proof.
  intros Hne Hx Hy Hxs Hys.
  destruct (first_last_Ok xs Hxs) as (lx & rx & Hlx & Hrx & _).
  destruct (first_last_Ok ys Hys) as (ly & uy & Hly & Huy & _).
  pose proof (maybe_swap_spatial_dims_Ok ds namex namey xs ys lx rx ly uy
                Hx Hy Hlx Hrx Hly Huy) as Hcall.
  assert (stored_decreasing xs ↔ rx < lx) as Hdx
    by (unfold stored_decreasing; by rewrite Hlx, Hrx).
  assert (stored_decreasing ys ↔ uy < ly) as Hdy
    by (unfold stored_decreasing; by rewrite Hly, Huy).
  eexists. split; [exact Hcall|].
  destruct (decide (uy < ly)) as [Hy'|Hy'], (decide (rx < lx)) as [Hx'|Hx'];
    (rewrite ?(decide_True (P := stored_decreasing xs)) by (by apply Hdx));
    (rewrite ?(decide_True (P := stored_decreasing ys)) by (by apply Hdy));
    (rewrite ?(decide_False (P := stored_decreasing xs)) by (by rewrite Hdx));
    (rewrite ?(decide_False (P := stored_decreasing ys)) by (by rewrite Hdy));
    simpl.
  - split; [by rewrite lookup_insert_ne, lookup_insert_eq|].
    split; [by rewrite lookup_insert_eq|]. split; [|by rewrite Hdx].
    intros d ix [[<- <-]|[_ [[<- <-]|[_ ?]]%lookup_insert_Some]]%lookup_insert_Some;
      by auto.
  - split; [by rewrite lookup_insert_ne|].
    split; [by rewrite lookup_insert_eq|]. split; [|by rewrite Hdy].
    intros d ix [[<- <-]|[_ ?]]%lookup_insert_Some; by auto.
  - split; [by rewrite lookup_insert_eq|].
    split; [by rewrite lookup_insert_ne|]. split; [|by rewrite Hdx].
    intros d ix [[<- <-]|[_ ?]]%lookup_insert_Some; by auto.
  - done.
Qed.

(** C6 (as amended).  On a dataset with non-empty spatial axes the call
    returns the dataset indexed by slices that reverse the x axis, and all
    data dimensioned on it, exactly when x is stored decreasing (first label
    greater than last), and the y axis exactly when y is stored decreasing;
    no other axis is touched.  After the call neither axis is stored
    decreasing, a strictly monotone axis has become ascending, and a dataset
    whose axes are both not stored decreasing is returned unchanged. *)
Theorem maybe_swap_spatial_dims_ascending ds namex namey xs ys :
  namex ≠ namey →
  indexes ds namex = Ok xs → indexes ds namey = Ok ys →
  xs ≠ [] → ys ≠ [] →
  ∃ ds' swaps xs' ys',
    maybe_swap_spatial_dims ds namex namey = Ok ds' ∧
    ds' = isel swaps ds ∧
    (swaps !! namex = Some SliceRev ↔ stored_decreasing xs) ∧
    (swaps !! namey = Some SliceRev ↔ stored_decreasing ys) ∧
    (∀ d ix, swaps !! d = Some ix → ix = SliceRev ∧ (d = namex ∨ d = namey)) ∧
    indexes ds' namex = Ok xs' ∧ indexes ds' namey = Ok ys' ∧
    xs' = (if decide (stored_decreasing xs) then reverse xs else xs) ∧
    ys' = (if decide (stored_decreasing ys) then reverse ys else ys) ∧
    ¬ stored_decreasing xs' ∧ ¬ stored_decreasing ys' ∧
    (ascending xs ∨ descending xs → ascending xs') ∧
    (ascending ys ∨ descending ys → ascending ys') ∧
    (¬ stored_decreasing xs → ¬ stored_decreasing ys → ds' = ds).
Proof.
  intros Hne Hx Hy Hxs Hys.
  destruct (maybe_swap_spatial_dims_swaps ds namex namey xs ys Hne Hx Hy Hxs Hys)
    as (swaps & Hcall & Hsx & Hsy & Hother & Hnone).
  pose proof (reverse_orients xs) as [Hox1 Hox2].
  pose proof (reverse_orients ys) as [Hoy1 Hoy2].
  eexists _, swaps, _, _. split; [exact Hcall|]. split; [done|].
  split; [rewrite Hsx; destruct (decide (stored_decreasing xs)); split; by intros|].
  split; [rewrite Hsy; destruct (decide (stored_decreasing ys)); split; by intros|].
  split; [done|].
  split.
  { erewrite indexes_isel by done. rewrite Hsx.
    instantiate (1 := if decide (stored_decreasing xs) then reverse xs else xs).
    by destruct (decide (stored_decreasing xs)). }
  split.
  { erewrite indexes_isel by done. rewrite Hsy.
    instantiate (1 := if decide (stored_decreasing ys) then reverse ys else ys).
    by destruct (decide (stored_decreasing ys)). }
  split; [done|]. split; [done|].
  split; [done|]. split; [done|]. split; [done|]. split; [done|].
  intros Hnx Hny. rewrite Hnone by done. apply isel_empty.
Qed.

(** C6, as stated, fails on the y axis: a dataset stored north-up (x
    ascending, y descending) is not returned unchanged, its y axis comes out
    ascending with the rows of the data reversed; and a y axis stored
    increasing is not reversed. *)
Lemma maybe_swap_spatial_dims_flips_north_up :
  indexes north_up "x" = Ok [qc 0; qc 1] ∧
  indexes north_up "y" = Ok [qc 1; qc 0] ∧
  (∃ ds', maybe_swap_spatial_dims north_up "x" "y" = Ok ds' ∧
          indexes ds' "y" = Ok [qc 0; qc 1] ∧
          da_values <$> (data_vars ds').*2 =
            [Arr [Arr [Scalar (qc 3); Scalar (qc 4)];
                  Arr [Scalar (qc 1); Scalar (qc 2)]]]%list ∧
          ds' ≠ north_up) ∧
  stored_increasing [qc 0; qc 1] ∧
  indexes south_up "y" = Ok [qc 0; qc 1] ∧
  maybe_swap_spatial_dims south_up "x" "y" = Ok south_up.
Proof.
  split; [by vm_compute|]. split; [by vm_compute|]. split.
  - eexists. split; [by vm_compute|]. split; [by vm_compute|].
    split; [by vm_compute|].
    intros Heq. apply (f_equal (λ ds, indexes ds "y")) in Heq.
    vm_compute in Heq. discriminate.
  - split; [by vm_compute|]. split; by vm_compute.
Qed.

Lemma maybe_swap_spatial_dims_ascending_witness :
  ("x" ≠ "y" ∧ indexes north_up "x" = Ok [qc 0; qc 1] ∧
   indexes north_up "y" = Ok [qc 1; qc 0]) ∧
  ∃ ds' swaps xs' ys',
    maybe_swap_spatial_dims north_up "x" "y" = Ok ds' ∧
    ds' = isel swaps north_up ∧
    (swaps !! "x" = Some SliceRev ↔ stored_decreasing [qc 0; qc 1]) ∧
    (swaps !! "y" = Some SliceRev ↔ stored_decreasing [qc 1; qc 0]) ∧
    (∀ d ix, swaps !! d = Some ix → ix = SliceRev ∧ (d = "x" ∨ d = "y")) ∧
    indexes ds' "x" = Ok xs' ∧ indexes ds' "y" = Ok ys' ∧
    xs' = (if decide (stored_decreasing [qc 0; qc 1])
           then reverse [qc 0; qc 1] else [qc 0; qc 1]) ∧
    ys' = (if decide (stored_decreasing [qc 1; qc 0])
           then reverse [qc 1; qc 0] else [qc 1; qc 0]) ∧
    ¬ stored_decreasing xs' ∧ ¬ stored_decreasing ys' ∧
    (ascending [qc 0; qc 1] ∨ descending [qc 0; qc 1] → ascending xs') ∧
    (ascending [qc 1; qc 0] ∨ descending [qc 1; qc 0] → ascending ys') ∧
    (¬ stored_decreasing [qc 0; qc 1] → ¬ stored_decreasing [qc 1; qc 0] →
     ds' = north_up).
Proof.
  split; [split; [done|split; by vm_compute]|].
  apply maybe_swap_spatial_dims_ascending;
    [done|by vm_compute|by vm_compute|done|done].
Defined.

(** ** [regrid] *)

Lemma Qc_of_nat_ne_0 n : (0 < n)%nat → Qc_of_nat n ≠ 0.
Proof.
  intros Hn Heq. apply (f_equal this) in Heq. unfold Qc_of_nat in Heq.
  simpl in Heq. injection Heq as Heq. lia.
Qed.

Lemma _as_transform_Ok x y :
  (2 ≤ length x)%nat → (2 ≤ length y)%nat → ∃ t, _as_transform x y = Ok t.
Proof.
  intros Hx Hy. unfold _as_transform.
  destruct (first_last_Ok x) as (lx & rx & _ & _ & ->);
    [intros ->; simpl in Hx; lia|].
  destruct (first_last_Ok y) as (ly & uy & _ & _ & ->);
    [intros ->; simpl in Hy; lia|].
  simpl. unfold py_div.
  rewrite !decide_False by (apply Qc_of_nat_ne_0; lia).
  simpl. eauto.
Qed.

Lemma isel_dtypes swaps ds :
  da_dtype <$> (data_vars (isel swaps ds)).*2 = da_dtype <$> (data_vars ds).*2.
Proof.
  unfold isel. simpl.
  induction (data_vars ds) as [|[n da] dvs IH]; [done|].
  csimpl. by f_equal.
Qed.

Lemma isel_dims swaps ds :
  da_dims <$> (data_vars (isel swaps ds)).*2 = da_dims <$> (data_vars ds).*2.
Proof.
  unfold isel. simpl.
  induction (data_vars ds) as [|[n da] dvs IH]; [done|].
  csimpl. by f_equal.
Qed.

Lemma isel_names swaps ds : (data_vars (isel swaps ds)).*1 = (data_vars ds).*1.
Proof.
  unfold isel. simpl.
  induction (data_vars ds) as [|[n da] dvs IH]; [done|].
  csimpl. by f_equal.
Qed.

Lemma size_dtypes_distinct (l : list string) a b :
  a ∈ l → b ∈ l → a ≠ b → size (list_to_set l : gset string) ≠ 1%nat.
Proof.
  intros Ha Hb Hab Hsize.
  apply size_1_elem_of in Hsize as [c Hc].
  assert (a ∈ (list_to_set l : gset string)) as Ha' by by apply elem_of_list_to_set.
  assert (b ∈ (list_to_set l : gset string)) as Hb' by by apply elem_of_list_to_set.
  rewrite Hc in Ha', Hb'. set_solver.
Qed.

Lemma size_dtypes_same (l : list string) ty :
  l ≠ [] → (∀ a, a ∈ l → a = ty) → size (list_to_set l : gset string) = 1%nat.
Proof.
  intros Hne Hall.
  assert ((list_to_set l : gset string) = {[ty]}) as ->; [|apply size_singleton].
  apply set_eq. intros a. rewrite elem_of_list_to_set, elem_of_singleton.
  split; [by apply Hall|]. intros ->.
  destruct l as [|b l]; [done|]. rewrite <-(Hall b); left.
Qed.

Section regrid_facts.
Context `{Rasterio}.

Lemma mapM_apply_reproject kw namey namex dvs :
  (∀ v : string * DataArray, v ∈ dvs →
     namey ∈ da_dims v.2 ∧ namex ∈ da_dims v.2) →
  ∃ out,
    mapM (λ nv : string * DataArray,
            da ← apply_reproject kw namey namex nv.2; mret (nv.1, da)) dvs
    = Ok out ∧
    out.*1 = dvs.*1 ∧
    da_dtype <$> out.*2 = da_dtype <$> dvs.*2.
Proof.
  induction dvs as [|[n da] dvs IH]; intros Hdims; [by exists []|].
  destruct IH as (out & Hout & Hnames & Htys).
  { intros v Hv. apply Hdims. by right. }
  destruct (Hdims (n, da)) as [Hy Hx]; [left|]. simpl in Hy, Hx.
  eexists. split; [|split].
  - simpl. rewrite Hout. unfold apply_reproject.
    by rewrite decide_True by done.
  - csimpl. by f_equal.
  - csimpl. by f_equal.
Qed.
End regrid_facts.

Section regrid_claims.
Context `{Rasterio}.

(** With well-formed axes, [regrid] reaches its check of the dtypes. *)
Lemma regrid_reaches_check ds dimx dimy kwargs xs ys :
  ix_name dimx ≠ ix_name dimy →
  indexes ds (ix_name dimx) = Ok xs → indexes ds (ix_name dimy) = Ok ys →
  (2 ≤ length xs)%nat → (2 ≤ length ys)%nat →
  (2 ≤ length (ix_values dimx))%nat → (2 ≤ length (ix_values dimy))%nat →
  ∃ swaps kw (mk : list (string * DataArray) → Dataset),
    (∀ out, data_vars (mk out) = out) ∧
    regrid ds dimx dimy kwargs =
    if decide (size (list_to_set (da_dtype <$> (data_vars ds).*2) : gset string)
               = 1%nat)
    then out ← mapM (λ nv : string * DataArray,
                       da ← apply_reproject kw (ix_name dimy) (ix_name dimx) nv.2;
                       mret (nv.1, da))
                    (data_vars (isel swaps ds));
         mret (mk out)
    else Raise AssertionError.
Proof.
  intros Hne Hx Hy Hlx Hly Hldx Hldy.
  destruct (maybe_swap_spatial_dims_swaps ds _ _ xs ys Hne Hx Hy)
    as (swaps & Hcall & Hsx & Hsy & _ & _);
    [intros ->; simpl in Hlx; lia|intros ->; simpl in Hly; lia|].
  pose proof (indexes_isel swaps ds _ _ Hx) as Hx'.
  pose proof (indexes_isel swaps ds _ _ Hy) as Hy'.
  rewrite Hsx in Hx'. rewrite Hsy in Hy'.
  assert (indexes (isel swaps ds) (ix_name dimx) =
          Ok (if decide (stored_decreasing xs) then reverse xs else xs)) as Hx''
    by (rewrite Hx'; by destruct (decide (stored_decreasing xs))).
  assert (indexes (isel swaps ds) (ix_name dimy) =
          Ok (if decide (stored_decreasing ys) then reverse ys else ys)) as Hy''
    by (rewrite Hy'; by destruct (decide (stored_decreasing ys))).
  destruct (_as_transform_Ok
              (if decide (stored_decreasing xs) then reverse xs else xs)
              (if decide (stored_decreasing ys) then reverse ys else ys))
    as [src Hsrc];
    [destruct (decide (stored_decreasing xs)); by rewrite ?length_reverse
    |destruct (decide (stored_decreasing ys)); by rewrite ?length_reverse|].
  destruct (_as_transform_Ok (ix_values dimx) (ix_values dimy) Hldx Hldy)
    as [dst Hdst].
  eexists swaps, _, _. split; [|].
  2:{ unfold regrid. rewrite Hcall. simpl. rewrite Hx'', Hy''. simpl.
      rewrite Hsrc. simpl. rewrite Hdst. simpl.
      assert (∀ (k : xr_kind) (a : list DataArray),
                match k with KDataset => a | KDataArray => a end = a) as ->
        by (by intros []).
      pose proof (isel_dtypes swaps ds) as Hd. unfold isel in Hd.
      simpl in Hd. rewrite Hd. reflexivity. }
  done.
Qed.
(** C9 (as amended).  On a dataset whose spatial axes and target axes
    have at least two labels each: when two of its data arrays differ in
    dtype, [regrid] raises the [AssertionError] of its [assert] and
    returns nothing; when it has data arrays, all of one dtype and all
    dimensioned on both spatial axes, [regrid] returns a dataset with the
    same variables, each of that dtype. *)
Theorem regrid_dtype_assertion ds dimx dimy kwargs xs ys :
  ix_name dimx ≠ ix_name dimy →
  indexes ds (ix_name dimx) = Ok xs → indexes ds (ix_name dimy) = Ok ys →
  (2 ≤ length xs)%nat → (2 ≤ length ys)%nat →
  (2 ≤ length (ix_values dimx))%nat → (2 ≤ length (ix_values dimy))%nat →
  ((∃ v1 v2 : string * DataArray,
      v1 ∈ data_vars ds ∧ v2 ∈ data_vars ds ∧ da_dtype v1.2 ≠ da_dtype v2.2) →
   regrid ds dimx dimy kwargs = Raise AssertionError) ∧
  (∀ ty,
     data_vars ds ≠ [] →
     (∀ v : string * DataArray, v ∈ data_vars ds →
        da_dtype v.2 = ty ∧
        ix_name dimy ∈ da_dims v.2 ∧ ix_name dimx ∈ da_dims v.2) →
     ∃ out, regrid ds dimx dimy kwargs = Ok out ∧
            (data_vars out).*1 = (data_vars ds).*1 ∧
            ∀ v : string * DataArray, v ∈ data_vars out → da_dtype v.2 = ty).
Proof.
  intros Hne Hx Hy Hlx Hly Hldx Hldy.
  destruct (regrid_reaches_check ds dimx dimy kwargs xs ys
              Hne Hx Hy Hlx Hly Hldx Hldy) as (swaps & kw & mk & Hmk & ->).
  split.
  - intros (v1 & v2 & Hv1 & Hv2 & Hdiff).
    rewrite decide_False; [done|].
    apply (size_dtypes_distinct _ (da_dtype v1.2) (da_dtype v2.2));
      [| |done]; apply list_elem_of_fmap; eexists; (split; [done|]);
      apply list_elem_of_fmap; eauto.
  - intros ty Hvars Hall.
    rewrite decide_True.
    2:{ apply (size_dtypes_same _ ty).
        - by destruct (data_vars ds).
        - intros a (da & -> & (v & -> & Hv)%list_elem_of_fmap)%list_elem_of_fmap.
          by apply Hall. }
    destruct (mapM_apply_reproject kw (ix_name dimy) (ix_name dimx)
                (data_vars (isel swaps ds))) as (out & -> & Hnames & Htys).
    { intros v Hv. unfold isel in Hv. simpl in Hv.
      apply list_elem_of_fmap in Hv as ([n da] & -> & Hv). simpl.
      by destruct (Hall _ Hv) as (_ & ? & ?). }
    exists (mk out). simpl. split; [done|]. rewrite Hmk.
    split; [by rewrite Hnames, isel_names|].
    intros v Hv. rewrite isel_dtypes in Htys.
    assert (da_dtype v.2 ∈ da_dtype <$> out.*2) as Hin.
    { apply list_elem_of_fmap. eexists. split; [done|].
      apply list_elem_of_fmap. eauto. }
    rewrite Htys in Hin.
    apply list_elem_of_fmap in Hin
      as (da & -> & (v0 & -> & Hv0)%list_elem_of_fmap).
    by apply Hall.
Qed.
End regrid_claims.

(** C9, as stated, fails: two arrays of different dtypes make [regrid] raise
    [AssertionError]; no exception of the module is named
    [HeterogeneousTypeError]. *)
Lemma regrid_mixed_dtypes_AssertionError :
  @regrid same_grid_rasterio mixed_dtypes
    {| ix_name := "x"; ix_values := [qc 0; qc 1] |}
    {| ix_name := "y"; ix_values := [qc 0; qc 1] |} no_kwargs
  = Raise AssertionError ∧
  exn_name AssertionError ≠ "HeterogeneousTypeError".
Proof. split; [by vm_compute|done]. Qed.

Lemma regrid_dtype_assertion_witness :
  ("x" ≠ "y" ∧
   indexes same_dtypes "x" = Ok [qc 0; qc 1] ∧
   indexes same_dtypes "y" = Ok [qc 0; qc 1]) ∧
  ((∃ v1 v2 : string * DataArray,
      v1 ∈ data_vars same_dtypes ∧ v2 ∈ data_vars same_dtypes ∧
      da_dtype v1.2 ≠ da_dtype v2.2) →
   @regrid same_grid_rasterio same_dtypes
     {| ix_name := "x"; ix_values := [qc 0; qc 1] |}
     {| ix_name := "y"; ix_values := [qc 0; qc 1] |} no_kwargs
   = Raise AssertionError) ∧
  (∀ ty,
     data_vars same_dtypes ≠ [] →
     (∀ v : string * DataArray, v ∈ data_vars same_dtypes →
        da_dtype v.2 = ty ∧ "y" ∈ da_dims v.2 ∧ "x" ∈ da_dims v.2) →
     ∃ out, @regrid same_grid_rasterio same_dtypes
              {| ix_name := "x"; ix_values := [qc 0; qc 1] |}
              {| ix_name := "y"; ix_values := [qc 0; qc 1] |} no_kwargs = Ok out ∧
            (data_vars out).*1 = (data_vars same_dtypes).*1 ∧
            ∀ v : string * DataArray, v ∈ data_vars out → da_dtype v.2 = ty).
Proof.
  split; [split; [done|split; by vm_compute]|].
  apply (@regrid_dtype_assertion same_grid_rasterio same_dtypes
           {| ix_name := "x"; ix_values := [qc 0; qc 1] |}
           {| ix_name := "y"; ix_values := [qc 0; qc 1] |} no_kwargs
           [qc 0; qc 1] [qc 0; qc 1]);
    [done|by vm_compute|by vm_compute|simpl; lia..].
Defined.

(** ** [reproject_shapes] *)

Lemma od_setitem_fresh {V} k (v : V) items :
  k ∉ items.*1 → od_setitem k v items = items ++ [(k, v)].
Proof.
  induction items as [|[k' v'] items IH]; intros Hk; [done|].
  simpl. rewrite decide_False by (intros ->; apply Hk; left).
  rewrite IH; [done|]. intros ?. apply Hk. by right.
Qed.

Lemma OrderedDict_NoDup {V} (pairs : list (string * V)) :
  NoDup pairs.*1 → OrderedDict pairs = pairs.
Proof.
  unfold OrderedDict.
  assert (∀ acc : list (string * V), NoDup (acc.*1 ++ pairs.*1) →
            foldl (λ d kv, od_setitem kv.1 kv.2 d) acc pairs = acc ++ pairs)
    as Hgen; [|intros ?; by apply (Hgen [])].
  induction pairs as [|[k v] pairs IH]; intros acc Hnd; simpl.
  - by rewrite app_nil_r.
  - rewrite od_setitem_fresh.
    + rewrite IH; [by rewrite <-app_assoc|].
      rewrite fmap_app. simpl. by rewrite <-app_assoc.
    + apply NoDup_app in Hnd as (_ & Hdisj & _).
      intros Hk. apply (Hdisj k Hk). left.
Qed.

Lemma fmap_round_trip {A} (R : A → A → Prop) (f : A → A) (l : list A) :
  (∀ a, a ∈ l → R (f a) a) → Forall2 R (f <$> l) l.
Proof.
  induction l as [|a l IH]; intros Hall; [constructor|].
  csimpl. constructor; [apply Hall; left|].
  apply IH. intros b Hb. apply Hall. by right.
Qed.

Section reproject_shapes_claims.
Context `{Pyproj}.

(** The result of the call, case by case. *)
Lemma reproject_shapes_Ok shapes_ crs1 crs2 f :
  from_crs crs1 crs2 = Ok f → shapes_wf shapes_ →
  reproject_shapes shapes_ crs1 crs2 =
  Ok match shapes_ with
     | PdSeries items => PdSeries (prod_map id (transform f) <$> items)
     | PyDict items | PyOrderedDict items =>
         PyOrderedDict (prod_map id (transform f) <$> items)
     | PyList items | PyTuple items => PyList (transform f <$> items)
     end.
Proof.
  intros Hf Hwf. unfold reproject_shapes. rewrite Hf. simpl.
  destruct shapes_ as [items|items|items|items|items]; try done;
    simpl in Hwf; (rewrite OrderedDict_NoDup;
      [done|by rewrite <-list_fmap_compose]).
Qed.

(** What the caller observes of the result. *)
Lemma reproject_shapes_observed shapes_ crs1 crs2 f :
  from_crs crs1 crs2 = Ok f → shapes_wf shapes_ →
  ∃ out,
    reproject_shapes shapes_ crs1 crs2 = Ok out ∧
    shapes_container out = shapes_container shapes_ ∧
    (match shapes_, out with
     | PdSeries _, PdSeries _ => True
     | (PyDict _ | PyOrderedDict _), PyOrderedDict _ => True
     | (PyList _ | PyTuple _), PyList _ => True
     | _, _ => False
     end) ∧
    shapes_labels out = shapes_labels shapes_ ∧
    shapes_geoms out = transform f <$> shapes_geoms shapes_ ∧
    shapes_wf out.
Proof.
  intros Hf Hwf. eexists. split; [by apply reproject_shapes_Ok|].
  assert (∀ items : list (string * Polygon),
            (prod_map id (transform f) <$> items).*1 = items.*1) as Hfst.
  { intros items. rewrite <-list_fmap_compose. by apply list_fmap_ext. }
  assert (∀ items : list (string * Polygon),
            (prod_map id (transform f) <$> items).*2 = transform f <$> items.*2)
    as Hsnd.
  { intros items. rewrite <-!list_fmap_compose. by apply list_fmap_ext. }
  split; [by destruct shapes_|]. split; [by destruct shapes_|].
  split; [destruct shapes_; simpl; by rewrite ?Hfst|].
  split; [destruct shapes_; simpl; by rewrite ?Hsnd|].
  destruct shapes_; simpl in *; by rewrite ?Hfst.
Qed.

(** C4.  For a pair of reference systems with a transform, the call returns
    a collection of the same kind of container: a Series gives a Series and
    a dict a (ordered) dict, with the same labels or keys in the same order,
    each bound to the reprojection of its value; every other iterable gives
    a list of the reprojected geometries in iteration order.  The number of
    elements is unchanged.  In the object store the result is a new object
    and every object present before, the argument included, is as it
    was. *)
Theorem reproject_shapes_container shapes_ crs1 crs2 f :
  from_crs crs1 crs2 = Ok f → shapes_wf shapes_ →
  ∃ out,
    reproject_shapes shapes_ crs1 crs2 = Ok out ∧
    shapes_container out = shapes_container shapes_ ∧
    (match shapes_, out with
     | PdSeries _, PdSeries _ => True
     | (PyDict _ | PyOrderedDict _), PyOrderedDict _ => True
     | (PyList _ | PyTuple _), PyList _ => True
     | _, _ => False
     end) ∧
    shapes_labels out = shapes_labels shapes_ ∧
    shapes_geoms out = transform f <$> shapes_geoms shapes_ ∧
    length (shapes_geoms out) = length (shapes_geoms shapes_) ∧
    ∀ (h : gmap positive shapes) l,
      h !! l = Some shapes_ →
      ∃ h' l',
        reproject_shapes_at h l crs1 crs2 = Ok (h', l') ∧
        h !! l' = None ∧ h' !! l' = Some out ∧
        h' !! l = Some shapes_ ∧
        ∀ k o, h !! k = Some o → h' !! k = Some o.
Proof.
  intros Hf Hwf.
  destruct (reproject_shapes_observed shapes_ crs1 crs2 f Hf Hwf)
    as (out & Hout & Hkind & Hty & Hlabels & Hgeoms & _).
  exists out. split; [done|]. split; [done|]. split; [done|].
  split; [done|]. split; [done|].
  split; [by rewrite Hgeoms, length_fmap|].
  intros h l Hl. unfold reproject_shapes_at, getitem. rewrite Hl. simpl.
  rewrite Hout. simpl.
  assert (h !! fresh (dom h) = None) as Hfresh
    by apply not_elem_of_dom, is_fresh.
  eexists _, _. split; [done|]. split; [done|].
  split; [by rewrite lookup_insert_eq|].
  split.
  - rewrite lookup_insert_ne; [done|congruence].
  - intros k o Hk. rewrite lookup_insert_ne; [done|congruence].
Qed.

(** C5.  When both transforms exist and the transform there and back
    moves no vertex of the collection by more than [eps] in either
    coordinate, reprojecting from A to B and back from B to A returns a
    collection with the same labels whose geometries have the rings of the
    originals and lie within [eps] of them, vertex by vertex. *)
Theorem reproject_shapes_round_trip shapes_ A B fAB fBA eps :
  from_crs A B = Ok fAB → from_crs B A = Ok fBA → shapes_wf shapes_ →
  (∀ g p, g ∈ shapes_geoms shapes_ → p ∈ vertices g →
          close eps (fBA (fAB p)) p) →
  ∃ there back,
    reproject_shapes shapes_ A B = Ok there ∧
    reproject_shapes there B A = Ok back ∧
    shapes_container back = shapes_container shapes_ ∧
    shapes_labels back = shapes_labels shapes_ ∧
    Forall2 (polygon_close eps) (shapes_geoms back) (shapes_geoms shapes_).
Proof.
  intros HAB HBA Hwf Hclose.
  destruct (reproject_shapes_observed shapes_ A B fAB HAB Hwf)
    as (there & Hthere & Hk1 & _ & Hl1 & Hg1 & Hwf1).
  destruct (reproject_shapes_observed there B A fBA HBA Hwf1)
    as (back & Hback & Hk2 & _ & Hl2 & Hg2 & _).
  exists there, back. split; [done|]. split; [done|].
  split; [congruence|]. split; [congruence|].
  rewrite Hg2, Hg1, <-list_fmap_compose.
  apply (fmap_round_trip (polygon_close eps)).
  intros g Hg. unfold polygon_close, transform. simpl. split.
  - rewrite <-list_fmap_compose. apply (fmap_round_trip (close eps)).
    intros p Hp. apply (Hclose g); [done|].
    unfold vertices. apply elem_of_app. by left.
  - rewrite <-list_fmap_compose.
    apply (fmap_round_trip (Forall2 (close eps))).
    intros ring Hring. simpl. rewrite <-list_fmap_compose.
    apply (fmap_round_trip (close eps)).
    intros p Hp. apply (Hclose g); [done|].
    unfold vertices. apply elem_of_app. right.
    apply list_elem_of_join. eauto.
Qed.
End reproject_shapes_claims.

Lemma reproject_shapes_container_witness :
  (@from_crs (unit_pyproj degrees_minutes) 4326 1 = Ok to_minutes ∧
   shapes_wf regions) ∧
  ∃ out,
    @reproject_shapes (unit_pyproj degrees_minutes) regions 4326 1 = Ok out ∧
    shapes_container out = shapes_container regions ∧
    (match regions, out with
     | PdSeries _, PdSeries _ => True
     | (PyDict _ | PyOrderedDict _), PyOrderedDict _ => True
     | (PyList _ | PyTuple _), PyList _ => True
     | _, _ => False
     end) ∧
    shapes_labels out = shapes_labels regions ∧
    shapes_geoms out = transform to_minutes <$> shapes_geoms regions ∧
    length (shapes_geoms out) = length (shapes_geoms regions) ∧
    ∀ (h : gmap positive shapes) l,
      h !! l = Some regions →
      ∃ h' l',
        @reproject_shapes_at (unit_pyproj degrees_minutes) h l 4326 1
        = Ok (h', l') ∧
        h !! l' = None ∧ h' !! l' = Some out ∧
        h' !! l = Some regions ∧
        ∀ k o, h !! k = Some o → h' !! k = Some o.
Proof.
  assert (shapes_wf regions) as Hwf by (simpl; apply (bool_decide_unpack _); by vm_compute).
  split; [split; [reflexivity|done]|].
  apply (@reproject_shapes_container (unit_pyproj degrees_minutes)
           regions 4326 1 to_minutes); [reflexivity|done].
Defined.

Lemma reproject_shapes_round_trip_witness :
  (@from_crs (unit_pyproj degrees_minutes) 4326 1 = Ok to_minutes ∧
   @from_crs (unit_pyproj degrees_minutes) 1 4326 = Ok to_degrees ∧
   shapes_wf regions ∧
   ∀ g p, g ∈ shapes_geoms regions → p ∈ vertices g →
          close 0 (to_degrees (to_minutes p)) p) ∧
  ∃ there back,
    @reproject_shapes (unit_pyproj degrees_minutes) regions 4326 1 = Ok there ∧
    @reproject_shapes (unit_pyproj degrees_minutes) there 1 4326 = Ok back ∧
    shapes_container back = shapes_container regions ∧
    shapes_labels back = shapes_labels regions ∧
    Forall2 (polygon_close 0) (shapes_geoms back) (shapes_geoms regions).
Proof.
  assert (shapes_wf regions) as Hwf by (simpl; apply (bool_decide_unpack _); by vm_compute).
  assert (∀ g p, g ∈ shapes_geoms regions → p ∈ vertices g →
                 close 0 (to_degrees (to_minutes p)) p) as Hclose.
  { assert (Forall (λ g, Forall (λ p, close 0 (to_degrees (to_minutes p)) p)
                            (vertices g)) (shapes_geoms regions)) as Hall
      by (apply (bool_decide_unpack _); by vm_compute).
    intros g p Hg Hp. rewrite Forall_forall in Hall.
    specialize (Hall g Hg). rewrite Forall_forall in Hall. by apply Hall. }
  split; [split; [reflexivity|split; [reflexivity|done]]|].
  apply (@reproject_shapes_round_trip (unit_pyproj degrees_minutes)
           regions 4326 1 to_minutes to_degrees 0);
    [reflexivity|reflexivity|done|done].
Defined.

(** ** [compute_indicatormatrix] *)

(** C2.  For the three unit squares tiling [[0,3] x [0,1]] as [orig] and the
    square [[0.5,2.5] x [0,1]] as [dest], in one reference system, the call
    returns the 1 x 3 matrix with the row 0.5, 1, 0.5. *)
Theorem indicator_three_squares :
  @compute_indicatormatrix (unit_pyproj degrees_minutes) rect_geos scan_tree
    unit_squares (Shapes (PyList [wide_square])) 4326 4326
  = Ok {| lil_shape := (1%nat, 3%nat);
          lil_entries := {[ (0%nat, 0%nat) := qc (1 # 2);
                            (0%nat, 1%nat) := qc 1;
                            (0%nat, 2%nat) := qc (1 # 2) ]} |}.
Proof. apply (bool_decide_unpack _). by vm_compute. Qed.

(** Loops *)

Lemma for_each_inv {A S} (I : S → Prop) (body : S → A → result S) l acc acc' :
  (∀ s a s', a ∈ l → I s → body s a = Ok s' → I s') →
  I acc → for_each body l acc = Ok acc' → I acc'.
Proof.
  revert acc. induction l as [|a l IH]; intros acc Hbody Hacc Hrun; simpl in Hrun.
  - by injection Hrun as <-.
  - apply bind_Ok in Hrun as (s & Hs & Hrun).
    apply (IH s); [|by eapply Hbody; [left|..]|done].
    intros s1 a1 s2 Ha1. apply Hbody. by right.
Qed.

Lemma for_each_total {A S} (I : S → Prop) (body : S → A → result S) l acc :
  (∀ s a, a ∈ l → I s → ∃ s', body s a = Ok s' ∧ I s') →
  I acc → ∃ acc', for_each body l acc = Ok acc' ∧ I acc'.
Proof.
  revert acc. induction l as [|a l IH]; intros acc Hbody Hacc; simpl; [eauto|].
  destruct (Hbody acc a) as (s & -> & Hs); [left|done|]. simpl.
  apply IH; [|done]. intros s1 a1 Ha1. apply Hbody. by right.
Qed.

Lemma for_each_must_raise {A S} (I : S → Prop) (body : S → A → result S)
    e l acc :
  (∀ s a, a ∈ l → I s → (∃ s', body s a = Ok s' ∧ I s') ∨ body s a = Raise e) →
  (∃ a, a ∈ l ∧ ∀ s, I s → body s a = Raise e) →
  I acc → for_each body l acc = Raise e.
Proof.
  revert acc. induction l as [|a l IH]; intros acc Hbody (b & Hb & Hraise) Hacc.
  - by apply elem_of_nil in Hb.
  - simpl. destruct (Hbody acc a) as [(s & Hbs & Hs)| ->]; [left|done| |done].
    apply elem_of_cons in Hb as [->|Hb].
    + specialize (Hraise acc Hacc). congruence.
    + rewrite Hbs. simpl.
      apply IH; [|by eauto|done]. intros s1 a1 Ha1. apply Hbody. by right.
Qed.

Lemma enumerate_elem {A} (l : list A) i a :
  (i, a) ∈ enumerate l ↔ l !! i = Some a.
Proof.
  unfold enumerate. rewrite list_elem_of_lookup. split.
  - intros (k & Hk). apply lookup_zip_with_Some in Hk
      as (i' & a' & [= <- <-] & Hi & Ha).
    apply lookup_seq in Hi as [-> _]. done.
  - intros Ha. exists i. apply lookup_zip_with_Some. exists i, a.
    split; [done|]. split; [|done].
    apply lookup_seq. split; [done|]. by eapply lookup_lt_Some.
Qed.

Lemma Qcdiv_unit_interval (a b : Qc) :
  0 ≤ a ≤ b → b ≠ 0 → 0 ≤ a / b ≤ 1.
Proof.
  intros [Ha Hab] Hb.
  assert (0 < b) as Hpos.
  { destruct (Qclt_le_dec 0 b) as [|Hle]; [done|].
    exfalso. apply Hb. apply Qcle_antisym; [done|by etrans]. }
  split.
  - apply (Qcmult_le_mono_pos_r _ _ b Hpos).
    replace (a / b * b) with a by (by field). by rewrite Qcmult_0_l.
  - apply (Qcmult_le_mono_pos_r _ _ b Hpos).
    replace (a / b * b) with a by (by field). by rewrite Qcmult_1_l.
Qed.

Lemma for_each_or_raise {A S} (I : S → Prop) (E : exn → Prop)
    (body : S → A → result S) l acc :
  (∀ s a, a ∈ l → I s →
     (∃ s', body s a = Ok s' ∧ I s') ∨ (∃ e, body s a = Raise e ∧ E e)) →
  I acc →
  (∃ acc', for_each body l acc = Ok acc' ∧ I acc') ∨
  (∃ e, for_each body l acc = Raise e ∧ E e).
Proof.
  revert acc. induction l as [|a l IH]; intros acc Hbody Hacc; simpl; [eauto|].
  destruct (Hbody acc a) as [(s & -> & Hs)|(e & -> & He)]; [left|done| |eauto].
  simpl. apply IH; [|done]. intros s1 a1 Ha1. apply Hbody. by right.
Qed.

Lemma foldl_index_inv (l : list (nat * PyObj)) (acc : gmap positive nat) N :
  (∀ k j, acc !! k = Some j → (j < N)%nat) →
  (∀ i o, (i, o) ∈ l → (i < N)%nat) →
  (∀ k j, foldl (λ idx io, <[obj_id io.2 := io.1]> idx) acc l !! k = Some j →
          (j < N)%nat) ∧
  (∀ k, is_Some (acc !! k) →
        is_Some (foldl (λ idx io, <[obj_id io.2 := io.1]> idx) acc l !! k)) ∧
  (∀ i o, (i, o) ∈ l →
        is_Some (foldl (λ idx io, <[obj_id io.2 := io.1]> idx) acc l
                   !! obj_id o)).
Proof.
  revert acc. induction l as [|[i0 o0] l IH]; intros acc Hacc Hl; simpl.
  - split; [done|]. split; [done|]. by intros i o ?%elem_of_nil.
  - destruct (IH (<[obj_id o0 := i0]> acc)) as (Hb & Hkeep & Hin).
    + intros k j [[_ <-]|[_ ?]]%lookup_insert_Some; [apply (Hl _ o0); left|eauto].
    + intros i o Hio. apply (Hl i o). by right.
    + split; [done|]. split.
      * intros k Hk. apply Hkeep. rewrite lookup_insert_is_Some'. by right.
      * intros i o [[= -> ->]|Hio]%elem_of_cons; [|by eauto].
        apply Hkeep. rewrite lookup_insert_is_Some'. by left.
Qed.

Lemma id_index_lookup orig o :
  o ∈ orig → ∃ j, id_index orig !! obj_id o = Some j ∧ (j < length orig)%nat.
Proof.
  intros (i & Hi)%list_elem_of_lookup.
  destruct (foldl_index_inv (enumerate orig) ∅ (length orig)) as (Hb & _ & Hin).
  - intros k j. by rewrite lookup_empty.
  - intros i' o' Hio%enumerate_elem. by eapply lookup_lt_Some.
  - destruct (Hin i o) as [j Hj]; [by apply enumerate_elem|].
    exists j. split; [done|]. by eapply Hb.
Qed.

Lemma lil_setitem_inv P shape m i j x m' :
  lil_inv P shape m → P x → lil_setitem m i j x = Ok m' → lil_inv P shape m'.
Proof.
  intros [Hshape Hentries] Hx. unfold lil_setitem.
  case_decide; [|done]. intros [= <-]. split; [done|]. simpl.
  intros k v. case_decide.
  - intros [_ ?]%lookup_delete_Some. eauto.
  - intros [[_ <-]|[_ ?]]%lookup_insert_Some; eauto.
Qed.

Lemma lil_setitem_Ok m i j x :
  (i < (lil_shape m).1)%nat → (j < (lil_shape m).2)%nat →
  ∃ m', lil_setitem m i j x = Ok m'.
Proof. intros Hi Hj. unfold lil_setitem. rewrite decide_True by done. eauto. Qed.

Lemma iter_shapes_geoms s d :
  VGeom d ∈ iter_shapes s → ∀ v, v ∈ iter_shapes s → ∃ d', v = VGeom d'.
Proof.
  destruct s as [items|items|items|items|items]; simpl;
    intros Hd v Hv; apply list_elem_of_fmap in Hv as (x & -> & _); eauto;
    by apply list_elem_of_fmap in Hd as (? & ? & _).
Qed.

Lemma iter_shapes_not_mapping s :
  shapes_container s ≠ Mapping → ∀ v, v ∈ iter_shapes s → ∃ d, v = VGeom d.
Proof.
  destruct s as [items|items|items|items|items]; simpl;
    intros Hk v Hv; try done; apply list_elem_of_fmap in Hv as (x & -> & _);
    eauto.
Qed.

Section compute_indicatormatrix_claims.
Context `{Pyproj, GEOS, STRtree}.

Lemma tree_query_elem orig d o :
  tree_query_correct →
  o ∈ tree_query orig d ↔
  o ∈ orig ∧ envelopes_intersect (obj_geom o) d = true.
Proof.
  intros Htree. rewrite (Htree orig d). by rewrite list_elem_of_filter, (comm (∧)).
Qed.

(** One candidate: the entry is a quotient by a non-zero area. *)
Lemma indicator_cell_inv P shape idx i d m o m' :
  lil_inv P shape m →
  (area (obj_geom o) ≠ 0 →
   P (area (intersection_of d (obj_geom o)) / area (obj_geom o))) →
  indicator_cell idx i d m o = Ok m' → lil_inv P shape m'.
Proof.
  intros Hm HP. unfold indicator_cell.
  destruct (intersects (obj_geom o) d); [|by intros [= <-]].
  intros (j & _ & (v & Hv & Hset)%bind_Ok)%bind_Ok.
  unfold py_div in Hv. case_decide as Hz; [done|]. injection Hv as <-.
  eapply lil_setitem_inv; [done| |done]. by apply HP.
Qed.

Lemma indicator_cell_cases P R C idx i d m o :
  lil_inv P (R, C) m → (i < R)%nat →
  (∃ j, idx !! obj_id o = Some j ∧ (j < C)%nat) →
  (area (obj_geom o) ≠ 0 →
   P (area (intersection_of d (obj_geom o)) / area (obj_geom o))) →
  if decide (intersects (obj_geom o) d = true ∧ area (obj_geom o) = 0)
  then indicator_cell idx i d m o = Raise ZeroDivisionError
  else ∃ m', indicator_cell idx i d m o = Ok m' ∧ lil_inv P (R, C) m'.
Proof.
  intros Hm Hi (j & Hj & HjC) HP. unfold indicator_cell, getitem, py_div.
  rewrite Hj. simpl.
  destruct (intersects (obj_geom o) d) eqn:Hint.
  - destruct (decide (area (obj_geom o) = 0)) as [Hz|Hz].
    + by rewrite decide_True by done.
    + rewrite decide_False by (by intros [_ ?]). simpl.
      destruct (lil_setitem_Ok m i j
                  (area (intersection_of d (obj_geom o)) / area (obj_geom o)))
        as [m' Hm']; [by rewrite (proj1 Hm)..|].
      exists m'. split; [done|]. eapply lil_setitem_inv; [done| |done]. auto.
  - rewrite decide_False by (by intros [? _]). eauto.
Qed.

(** One destination geometry. *)
Lemma indicator_row_inv P shape orig idx m i d m' :
  tree_query_correct →
  lil_inv P shape m →
  (∀ o, o ∈ orig → area (obj_geom o) ≠ 0 →
        P (area (intersection_of d (obj_geom o)) / area (obj_geom o))) →
  indicator_row orig idx m (i, VGeom d) = Ok m' → lil_inv P shape m'.
Proof.
  intros Htree Hm HP. unfold indicator_row. simpl.
  apply (for_each_inv (lil_inv P shape)); [|done].
  intros s o s' Ho%tree_query_elem Hs; [|done].
  apply indicator_cell_inv; [done|]. apply HP. tauto.
Qed.

Lemma indicator_row_cases P R orig m i d :
  tree_query_correct →
  lil_inv P (R, length orig) m → (i < R)%nat →
  (∀ o, o ∈ orig → area (obj_geom o) ≠ 0 →
        P (area (intersection_of d (obj_geom o)) / area (obj_geom o))) →
  (∃ m', indicator_row orig (id_index orig) m (i, VGeom d) = Ok m' ∧
         lil_inv P (R, length orig) m') ∨
  indicator_row orig (id_index orig) m (i, VGeom d) = Raise ZeroDivisionError.
Proof.
  intros Htree Hm Hi HP. unfold indicator_row. simpl.
  destruct (for_each_or_raise (lil_inv P (R, length orig))
              (λ e, e = ZeroDivisionError)
              (indicator_cell (id_index orig) i d) (tree_query orig d) m)
    as [?|(e & ? & ->)]; [|done|by left|by right].
  intros s o Ho%tree_query_elem Hs; [|done].
  pose proof (indicator_cell_cases P R (length orig) (id_index orig) i d s o
                Hs Hi (id_index_lookup _ _ (proj1 Ho)) (HP o (proj1 Ho)))
    as Hcases.
  case_decide; [right; eauto|by left].
Qed.

Lemma indicator_row_total P R orig m i d :
  tree_query_correct →
  lil_inv P (R, length orig) m → (i < R)%nat →
  (∀ o, o ∈ orig → area (obj_geom o) ≠ 0 →
        P (area (intersection_of d (obj_geom o)) / area (obj_geom o))) →
  (∀ o, o ∈ orig → intersects (obj_geom o) d = true → area (obj_geom o) ≠ 0) →
  ∃ m', indicator_row orig (id_index orig) m (i, VGeom d) = Ok m' ∧
        lil_inv P (R, length orig) m'.
Proof.
  intros Htree Hm Hi HP Hpos. unfold indicator_row. simpl.
  apply (for_each_total (lil_inv P (R, length orig))); [|done].
  intros s o Ho%tree_query_elem Hs; [|done].
  pose proof (indicator_cell_cases P R (length orig) (id_index orig) i d s o
                Hs Hi (id_index_lookup _ _ (proj1 Ho)) (HP o (proj1 Ho)))
    as Hcases.
  case_decide as Hc; [|done]. destruct Hc as [Hint Hz].
  by destruct (Hpos o (proj1 Ho) Hint).
Qed.

Lemma indicator_row_raise P R orig m i d o :
  tree_query_correct → intersects_in_envelopes →
  lil_inv P (R, length orig) m → (i < R)%nat →
  (∀ o, o ∈ orig → area (obj_geom o) ≠ 0 →
        P (area (intersection_of d (obj_geom o)) / area (obj_geom o))) →
  o ∈ orig → intersects (obj_geom o) d = true → area (obj_geom o) = 0 →
  indicator_row orig (id_index orig) m (i, VGeom d) = Raise ZeroDivisionError.
Proof.
  intros Htree Henv Hm Hi HP Ho Hint Hz. unfold indicator_row. simpl.
  apply (for_each_must_raise (lil_inv P (R, length orig))); [| |done].
  - intros s o' Ho'%tree_query_elem Hs; [|done].
    pose proof (indicator_cell_cases P R (length orig) (id_index orig) i d s o'
                  Hs Hi (id_index_lookup _ _ (proj1 Ho')) (HP o' (proj1 Ho')))
      as Hcases.
    case_decide; [by right|by left].
  - exists o. split; [apply tree_query_elem; auto|].
    intros s Hs.
    pose proof (indicator_cell_cases P R (length orig) (id_index orig) i d s o
                  Hs Hi (id_index_lookup _ _ Ho) (HP o Ho)) as Hcases.
    by rewrite decide_True in Hcases.
Qed.
Lemma lil_new_inv P shape : lil_inv P shape (lil_new shape).
Proof. split; [done|]. simpl. intros k v. by rewrite lookup_empty. Qed.

(** C1.  When the area of the intersection of a destination polygon with
    an origin polygon is never negative and never exceeds the area of the
    origin polygon, every entry stored in the matrix that
    [compute_indicatormatrix] returns lies between 0 and 1; and the call
    does return a matrix, of shape (len(dest), len(orig)), when [dest]
    is no dict and every origin polygon that intersects a destination
    polygon has a non-zero area. *)
Theorem indicator_entries_unit_interval orig dest orig_crs dest_crs :
  tree_query_correct →
  (∀ dest' o d,
     reproject_shapes (dest_shapes dest) dest_crs orig_crs = Ok dest' →
     o ∈ orig → VGeom d ∈ iter_shapes dest' →
     0 ≤ area (intersection_of d (obj_geom o)) ≤ area (obj_geom o)) →
  (∀ m, compute_indicatormatrix orig dest orig_crs dest_crs = Ok m →
        ∀ i j v, lil_entries m !! (i, j) = Some v → 0 ≤ v ≤ 1) ∧
  (∀ dest',
     reproject_shapes (dest_shapes dest) dest_crs orig_crs = Ok dest' →
     shapes_container dest' ≠ Mapping →
     (∀ o d, o ∈ orig → VGeom d ∈ iter_shapes dest' →
             intersects (obj_geom o) d = true → area (obj_geom o) ≠ 0) →
     ∃ m, compute_indicatormatrix orig dest orig_crs dest_crs = Ok m ∧
          lil_shape m = (length (iter_shapes dest'), length orig)).
Proof.
  intros Htree Harea.
  assert (∀ dest' o d,
            reproject_shapes (dest_shapes dest) dest_crs orig_crs = Ok dest' →
            VGeom d ∈ iter_shapes dest' → o ∈ orig → area (obj_geom o) ≠ 0 →
            0 ≤ area (intersection_of d (obj_geom o)) / area (obj_geom o) ≤ 1)
    as HP.
  { intros dest' o d Hdest Hd Ho Hz. apply Qcdiv_unit_interval; eauto. }
  split.
  - intros m Hm i j v Hv. unfold compute_indicatormatrix in Hm.
    apply bind_Ok in Hm as (dest' & Hdest & Hm). simpl in Hm.
    eapply (for_each_inv (lil_inv (λ v, 0 ≤ v ≤ 1)
                            (length (iter_shapes dest'), length orig)))
      in Hm as [_ Hentries]; [by eapply Hentries| |apply lil_new_inv].
    intros s [i' [d|k]] s' Hin%enumerate_elem Hs.
    + apply indicator_row_inv; [done..|].
      intros o. eapply HP; [done|]. by eapply list_elem_of_lookup_2.
    + unfold indicator_row. simpl. destruct orig; [|done]. by intros [= <-].
  - intros dest' Hdest Hkind Hpos. unfold compute_indicatormatrix.
    rewrite Hdest. simpl.
    destruct (for_each_total (lil_inv (λ v, 0 ≤ v ≤ 1)
                                (length (iter_shapes dest'), length orig))
                (indicator_row orig (id_index orig))
                (enumerate (iter_shapes dest'))
                (lil_new (length (iter_shapes dest'), length orig)))
      as (m & Hm & Hshape & _); [|apply lil_new_inv|by exists m].
    intros s [i' v] Hin%enumerate_elem Hs.
    destruct (iter_shapes_not_mapping dest' Hkind v) as [d ->];
      [by eapply list_elem_of_lookup_2|].
    assert (VGeom d ∈ iter_shapes dest') as Hd
      by by eapply list_elem_of_lookup_2.
    apply indicator_row_total; [done|done|by eapply lookup_lt_Some| |].
    + intros o. by eapply HP.
    + intros o Ho. by eapply Hpos.
Qed.

(** C8 (as amended).  When an origin polygon of zero area intersects a
    destination polygon, the call ends in Python's own
    [ZeroDivisionError], raised by the division by that area: no matrix is
    returned, hence no entry that is not a number. *)
Theorem indicator_zero_area_ZeroDivisionError
    orig dest orig_crs dest_crs dest' o d :
  tree_query_correct → intersects_in_envelopes →
  reproject_shapes (dest_shapes dest) dest_crs orig_crs = Ok dest' →
  o ∈ orig → VGeom d ∈ iter_shapes dest' →
  area (obj_geom o) = 0 → intersects (obj_geom o) d = true →
  compute_indicatormatrix orig dest orig_crs dest_crs
  = Raise ZeroDivisionError.
Proof.
  intros Htree Henv Hdest Ho Hd Hz Hint. unfold compute_indicatormatrix.
  rewrite Hdest. simpl.
  apply list_elem_of_lookup in Hd as [i Hi].
  apply (for_each_must_raise
           (lil_inv (λ _, True) (length (iter_shapes dest'), length orig)));
    [| |apply lil_new_inv].
  - intros s [i' v] Hin%enumerate_elem Hs.
    destruct (iter_shapes_geoms dest' d) with (v := v) as [d' ->];
      [by eapply list_elem_of_lookup_2..|].
    destruct (indicator_row_cases (λ _, True)
                (length (iter_shapes dest')) orig s i' d')
      as [?|?]; [done|done|by eapply lookup_lt_Some|done|by left|by right].
  - exists (i, VGeom d). split; [by apply enumerate_elem|].
    intros s Hs.
    by apply (indicator_row_raise (λ _, True)
                (length (iter_shapes dest')) orig s i d o);
      [..|by eapply lookup_lt_Some| | | |].
Qed.
End compute_indicatormatrix_claims.

Lemma scan_tree_correct : @tree_query_correct scan_tree.
Proof. by intros geoms geom. Qed.

Lemma rect_geos_intersects_in_envelopes : @intersects_in_envelopes rect_geos.
Proof. by intros a b. Qed.

Lemma reproject_wide_square :
  @reproject_shapes (unit_pyproj degrees_minutes)
    (dest_shapes (Shapes (PyList [wide_square]))) 4326 4326
  = Ok (PyList [wide_square]).
Proof. apply (bool_decide_unpack _). by vm_compute. Qed.

Lemma indicator_entries_unit_interval_witness :
  (@tree_query_correct scan_tree ∧
   ∀ dest' o d,
     @reproject_shapes (unit_pyproj degrees_minutes)
       (dest_shapes (Shapes (PyList [wide_square]))) 4326 4326 = Ok dest' →
     o ∈ unit_squares → VGeom d ∈ iter_shapes dest' →
     0 ≤ @area rect_geos (@intersection_of rect_geos d (obj_geom o))
       ≤ @area rect_geos (obj_geom o)) ∧
  (∀ m, @compute_indicatormatrix (unit_pyproj degrees_minutes) rect_geos scan_tree
          unit_squares (Shapes (PyList [wide_square])) 4326 4326 = Ok m →
        ∀ i j v, lil_entries m !! (i, j) = Some v → 0 ≤ v ≤ 1) ∧
  (∀ dest',
     @reproject_shapes (unit_pyproj degrees_minutes)
       (dest_shapes (Shapes (PyList [wide_square]))) 4326 4326 = Ok dest' →
     shapes_container dest' ≠ Mapping →
     (∀ o d, o ∈ unit_squares → VGeom d ∈ iter_shapes dest' →
             @intersects rect_geos (obj_geom o) d = true →
             @area rect_geos (obj_geom o) ≠ 0) →
     ∃ m, @compute_indicatormatrix (unit_pyproj degrees_minutes) rect_geos
            scan_tree unit_squares (Shapes (PyList [wide_square])) 4326 4326
          = Ok m ∧
          lil_shape m = (length (iter_shapes dest'), length unit_squares)).
Proof.
  assert (∀ dest' o d,
            @reproject_shapes (unit_pyproj degrees_minutes)
              (dest_shapes (Shapes (PyList [wide_square]))) 4326 4326 = Ok dest' →
            o ∈ unit_squares → VGeom d ∈ iter_shapes dest' →
            0 ≤ @area rect_geos (@intersection_of rect_geos d (obj_geom o))
              ≤ @area rect_geos (obj_geom o)) as Harea.
  { intros dest' o d Hdest Ho Hd.
    rewrite reproject_wide_square in Hdest. injection Hdest as <-.
    simpl in Hd. apply elem_of_cons in Hd as [[= ->]|Hd%elem_of_nil]; [|done].
    unfold unit_squares in Ho.
    repeat (apply elem_of_cons in Ho as [->|Ho]);
      [..|by apply elem_of_nil in Ho];
      apply (bool_decide_unpack _); by vm_compute. }
  split; [split; [apply scan_tree_correct|exact Harea]|].
  apply (@indicator_entries_unit_interval (unit_pyproj degrees_minutes)
           rect_geos scan_tree);
    [apply scan_tree_correct|exact Harea].
Defined.

(** C8, as stated, fails: with the degenerate origin polygon the call raises
    [ZeroDivisionError], and no exception of the module is named
    [DegeneratePolygonError]. *)
Lemma indicator_segment_ZeroDivisionError :
  @area rect_geos (rectangle 1 1 0 1) = 0 ∧
  @intersects rect_geos (rectangle 1 1 0 1) wide_square = true ∧
  @compute_indicatormatrix (unit_pyproj degrees_minutes) rect_geos scan_tree
    squares_and_segment (Shapes (PyList [wide_square])) 4326 4326
  = Raise ZeroDivisionError ∧
  exn_name ZeroDivisionError ≠ "DegeneratePolygonError".
Proof.
  split; [apply (bool_decide_unpack _); by vm_compute|].
  split; [by vm_compute|]. split; [by vm_compute|done].
Qed.

Lemma indicator_zero_area_ZeroDivisionError_witness :
  (@tree_query_correct scan_tree ∧ @intersects_in_envelopes rect_geos ∧
   @reproject_shapes (unit_pyproj degrees_minutes)
     (dest_shapes (Shapes (PyList [wide_square]))) 4326 4326
   = Ok (PyList [wide_square]) ∧
   {| obj_id := 2; obj_geom := rectangle 1 1 0 1 |} ∈ squares_and_segment ∧
   VGeom wide_square ∈ iter_shapes (PyList [wide_square]) ∧
   @area rect_geos (rectangle 1 1 0 1) = 0 ∧
   @intersects rect_geos (rectangle 1 1 0 1) wide_square = true) ∧
  @compute_indicatormatrix (unit_pyproj degrees_minutes) rect_geos scan_tree
    squares_and_segment (Shapes (PyList [wide_square])) 4326 4326
  = Raise ZeroDivisionError.
Proof.
  assert (@area rect_geos (rectangle 1 1 0 1) = 0) as Hz
    by (apply (bool_decide_unpack _); by vm_compute).
  assert ({| obj_id := 2; obj_geom := rectangle 1 1 0 1 |} ∈ squares_and_segment)
    as Ho by (right; left).
  assert (VGeom wide_square ∈ iter_shapes (PyList [wide_square])) as Hd by left.
  split.
  { split; [apply scan_tree_correct|].
    split; [apply rect_geos_intersects_in_envelopes|].
    split; [apply reproject_wide_square|]. split; [done|]. split; [done|].
    split; [done|by vm_compute]. }
  apply (@indicator_zero_area_ZeroDivisionError (unit_pyproj degrees_minutes)
           rect_geos scan_tree squares_and_segment
           (Shapes (PyList [wide_square])) 4326 4326 (PyList [wide_square])
           {| obj_id := 2; obj_geom := rectangle 1 1 0 1 |} wide_square);
    [apply scan_tree_correct|apply rect_geos_intersects_in_envelopes
    |apply reproject_wide_square|done|done|done|by vm_compute].
Defined.

(** ** [grid_cell_areas] *)

Lemma load_global_dx : load_global "dx" = Raise NameError.
Proof. by vm_compute. Qed.

(** The value the formula has for the cell at the equator. *)
Example spherical_cap_area_equator :
  Qc_of_Z 12363 < @spherical_cap_area series_ufuncs 1 1 (Qc_of_Z 0)
                < Qc_of_Z 12365.
Proof. split; by vm_compute. Qed.

Section grid_cell_areas_claims.
Context `{Pyproj, GEOS, Ufuncs}.

(** C3 (the code at the failing input).  On a cutout in EPSG:4326 the
    function reads the name [dx], which neither the function nor the module
    binds ([dy] is read from the cutout, [dx] is not): the call raises
    [NameError] and returns no area. *)
Theorem grid_cell_areas_NameError cutout :
  cutout_crs cutout = 4326%Z → grid_cell_areas cutout = Raise NameError.
Proof.
  intros Hcrs. unfold grid_cell_areas.
  rewrite decide_True by done. by rewrite load_global_dx.
Qed.
End grid_cell_areas_claims.

Lemma grid_cell_areas_NameError_witness :
  cutout_crs equator_cell = 4326%Z ∧
  @grid_cell_areas (unit_pyproj degrees_minutes) rect_geos series_ufuncs
    equator_cell = Raise NameError.
Proof.
  split; [reflexivity|].
  apply (@grid_cell_areas_NameError (unit_pyproj degrees_minutes) rect_geos
           series_ufuncs equator_cell).
  reflexivity.
Defined.

(** * Further properties *)

(** ** Label slices of sorted indexes *)


Lemma sorted2_le a b : (sorted2 a b).1 ≤ (sorted2 a b).2.
Proof.
  unfold sorted2. case_decide; simpl; [by apply Qclt_le_weak|by apply Qcnot_lt_le].
Qed.

Lemma filter_none {A} (P : A → Prop) `{!∀ v, Decision (P v)} (l : list A) :
  (∀ x, x ∈ l → ¬ P x) → filter P l = [].
Proof.
  induction l as [|x l IH]; intros Hall; [done|].
  rewrite filter_cons_False by (apply Hall; left).
  apply IH. intros y Hy. apply Hall. by right.
Qed.

Lemma filter_all {A} (P : A → Prop) `{!∀ v, Decision (P v)} (l : list A) :
  (∀ x, x ∈ l → P x) → filter P l = l.
Proof.
  induction l as [|x l IH]; intros Hall; [done|].
  rewrite filter_cons_True by (apply Hall; left).
  f_equal. apply IH. intros y Hy. apply Hall. by right.
Qed.

(** A sorted list splits at a downward closed predicate. *)
Lemma sorted_filter_split (P : Qc → Prop) `{!∀ v, Decision (P v)} (l : list Qc) :
  (∀ u v, u < v → P v → P u) → StronglySorted Qclt l →
  l = filter P l ++ filter (λ v, ¬ P v) l.
Proof.
  intros Hdown. induction l as [|x l IH]; intros Hs; [done|].
  apply StronglySorted_cons in Hs as [Hall Hs].
  destruct (decide (P x)) as [Hx|Hx].
  - rewrite filter_cons_True, (filter_cons_False (λ v, ¬ P v)) by tauto.
    simpl. f_equal. by apply IH.
  - rewrite filter_cons_False, (filter_cons_True (λ v, ¬ P v)) by done.
    assert (filter P l = []) as Hnil.
    { apply filter_none. intros v Hv HPv. apply Hx.
      rewrite Forall_forall in Hall. by eapply Hdown; [apply Hall|]. }
    rewrite Hnil. simpl. f_equal.
    rewrite (IH Hs) at 1. by rewrite Hnil.
Qed.

Lemma sorted_take_filter (P : Qc → Prop) `{!∀ v, Decision (P v)} (l : list Qc) :
  (∀ u v, u < v → P v → P u) → StronglySorted Qclt l →
  take (length (filter P l)) l = filter P l.
Proof.
  intros Hdown Hs. rewrite (sorted_filter_split P l Hdown Hs) at 2.
  apply take_app_length.
Qed.

Lemma sorted_drop_filter (P : Qc → Prop) `{!∀ v, Decision (P v)} (l : list Qc) :
  (∀ u v, u < v → P v → P u) → StronglySorted Qclt l →
  drop (length (filter P l)) l = filter (λ v, ¬ P v) l.
Proof.
  intros Hdown Hs. rewrite (sorted_filter_split P l Hdown Hs) at 2.
  apply drop_app_length.
Qed.

(** On a sorted index a label slice selects the labels between its bounds,
    both included. *)
Lemma label_slice_sorted idx lo hi :
  StronglySorted Qclt idx → lo ≤ hi →
  apply_indexer (label_slice idx lo hi) idx = filter (within lo hi) idx.
Proof.
  intros Hs Hle. unfold label_slice, searchsorted_left, searchsorted_right.
  simpl.
  assert (∀ u v : Qc, u < v → v < lo → u < lo) as Hd1 by (intros; by etrans).
  assert (∀ u v : Qc, u < v → v ≤ hi → u ≤ hi) as Hd2
    by (intros u v ? ?; apply Qclt_le_weak; by eapply Qclt_le_trans).
  pose proof (sorted_filter_split (λ a, a < lo) idx Hd1 Hs) as Hsplit.
  rewrite (sorted_drop_filter (λ a, a < lo) idx Hd1 Hs).
  set (B := filter (λ v, ¬ v < lo) idx) in *.
  assert (StronglySorted Qclt B) as HsB.
  { rewrite Hsplit in Hs. by apply StronglySorted_app_1_r in Hs. }
  assert (filter (λ a, a ≤ hi) idx =
          filter (λ a, a < lo) idx ++ filter (λ a, a ≤ hi) B) as Hhi.
  { rewrite Hsplit at 1. rewrite filter_app. f_equal.
    apply filter_all. intros v [Hv _]%list_elem_of_filter.
    apply Qclt_le_weak. by eapply Qclt_le_trans. }
  rewrite Hhi, length_app.
  match goal with
  | |- context [(?a + ?b - ?a)%nat] => replace (a + b - a)%nat with b by lia
  end.
  rewrite (sorted_take_filter (λ a, a ≤ hi) B Hd2 HsB).
  unfold B. rewrite list_filter_filter. apply list_filter_iff.
  intros v. unfold within. split.
  - intros [? ?]. split; [by apply Qcnot_lt_le|done].
  - intros [? ?]. split; [done|by apply Qcle_not_lt].
Qed.

(** ** The lattice of [numpy.arange] *)

Lemma arange_lattice start stop step :
  step ≠ 0 → arange start stop step = Ok (lattice start stop step).
Proof. apply arange_Ok. Qed.

Lemma Qc_of_nat_lt (i j : nat) : (i < j)%nat → Qc_of_nat i < Qc_of_nat j.
Proof.
  intros Hij. unfold Qclt, Qc_of_nat. simpl. rewrite <-Zlt_Qlt. lia.
Qed.

Lemma lattice_sorted start stop step :
  0 < step → StronglySorted Qclt (lattice start stop step).
Proof.
  intros Hstep. unfold lattice.
  apply (StronglySorted_fmap _ lt).
  - intros i j Hij. apply Qc_of_nat_lt in Hij.
    apply (Qcmult_lt_compat_r _ _ step) in Hij; [|done].
    qc_to_q. lra.
  - generalize (arange_length start stop step), 0%nat.
    intros n. induction n as [|n IH]; intros k; simpl; constructor.
    + apply IH.
    + apply Forall_forall. intros j [? _]%elem_of_seq. lia.
Qed.


Lemma StronglySorted_filter {A} (R : relation A) (P : A → Prop)
    `{!∀ v, Decision (P v)} (l : list A) :
  StronglySorted R l → StronglySorted R (filter P l).
Proof.
  induction l as [|x l IH]; intros Hs; [constructor|].
  apply StronglySorted_cons in Hs as [Hall Hs].
  rewrite filter_cons. case_decide; [|by apply IH].
  apply StronglySorted_cons. split; [|by apply IH].
  rewrite Forall_forall in *. intros v [_ Hv]%list_elem_of_filter. by apply Hall.
Qed.

(** ** [get_coords], continued *)

Lemma coords_isel ixs ds name :
  coords (isel ixs ds) !! name = coord_isel ixs <$> coords ds !! name.
Proof. unfold isel. simpl. apply lookup_fmap. Qed.

Section get_coords_more.
Context `{Pandas}.



(** The dataset that the call returns, as three selections of the global
    grid. *)
Lemma get_coords_isel x y time dx dy dt :
  dx ≠ 0 → dy ≠ 0 →
  ∃ sx sy st,
    get_coords x y time dx dy dt =
    Ok (isel {[ "time" := st ]} (isel {[ "y" := sy ]} (isel {[ "x" := sx ]}
      {| ds_kind := KDataset;
         coords :=
           <["lon" := {| c_dim := "x";
                         c_values := lattice (Qc_of_Z (-180)) (Qc_of_Z 180) dx |}]>
           (<["lat" := {| c_dim := "y";
                          c_values := lattice (Qc_of_Z (-90)) (Qc_of_Z 90) dy |}]>
            {[ "x" := {| c_dim := "x";
                         c_values := lattice (Qc_of_Z (-180)) (Qc_of_Z 180) dx |};
               "y" := {| c_dim := "y";
                         c_values := lattice (Qc_of_Z (-90)) (Qc_of_Z 90) dy |};
               "time" := {| c_dim := "time";
                            c_values := date_range_1979_now dt |} ]});
         data_vars := [];
         attrs := [] |}))).
Proof.
  intros Hdx Hdy. unfold get_coords.
  rewrite !arange_lattice by done. simpl.
  unfold sel_slice.
  match goal with |- context [indexes ?d "x"] => set (ds0 := d) end.
  assert (indexes ds0 "x" = Ok (lattice (Qc_of_Z (-180)) (Qc_of_Z 180) dx)) as Hx0
    by (unfold indexes, ds0; simpl; by simplify_map_eq).
  assert (indexes ds0 "y" = Ok (lattice (Qc_of_Z (-90)) (Qc_of_Z 90) dy)) as Hy0
    by (unfold indexes, ds0; simpl; by simplify_map_eq).
  assert (indexes ds0 "time" = Ok (date_range_1979_now dt)) as Ht0
    by (unfold indexes, ds0; simpl; by simplify_map_eq).
  rewrite Hx0. simpl.
  erewrite indexes_isel by done. rewrite lookup_singleton_ne by done. simpl.
  erewrite indexes_isel by (by erewrite indexes_isel by done).
  rewrite !lookup_singleton_ne by done. simpl. eauto.
Qed.

(** X3.  The coordinates [lon] and [lat] of the returned grid lie on the
    dimensions x and y and carry the labels of the x and y index; the grid
    has no data variable and no attribute. *)
Theorem get_coords_lon_lat x y time dx dy dt ds :
  get_coords x y time dx dy dt = Ok ds →
  ∃ xs ys,
    indexes ds "x" = Ok xs ∧ indexes ds "y" = Ok ys ∧
    coords ds !! "lon" = Some {| c_dim := "x"; c_values := xs |} ∧
    coords ds !! "lat" = Some {| c_dim := "y"; c_values := ys |} ∧
    data_vars ds = [] ∧ attrs ds = [].
Proof.
  intros Hds.
  destruct (decide (dx = 0)) as [Hdx|Hdx];
    [by rewrite get_coords_zero_step in Hds by by left|].
  destruct (decide (dy = 0)) as [Hdy|Hdy];
    [by rewrite get_coords_zero_step in Hds by by right|].
  destruct (get_coords_isel x y time dx dy dt Hdx Hdy) as (sx & sy & st & Hrun).
  rewrite Hrun in Hds. injection Hds as <-.
  eexists _, _. unfold indexes. rewrite !coords_isel. simpl.
  simplify_map_eq.
  assert (∀ (d d' : string) ix (c : Coord),
            c_dim c = d' → d ≠ d' → coord_isel {[ d := ix ]} c = c) as Hne.
  { intros d d' ix c <- Hd. unfold coord_isel.
    by rewrite lookup_singleton_ne. }
  assert (∀ (d : string) ix vs,
            coord_isel {[ d := ix ]} {| c_dim := d; c_values := vs |}
            = {| c_dim := d; c_values := apply_indexer ix vs |}) as Heq.
  { intros d ix vs. unfold coord_isel. simpl. by rewrite lookup_singleton_eq. }
  rewrite Heq, (Hne "x" "y") by done. rewrite Heq.
  rewrite !(Hne "time" "x"), !(Hne "time" "y"), !(Hne "y" "x") by done.
  done.
Qed.
End get_coords_more.

(** ** [maybe_swap_spatial_dims], continued *)

(** When the call returns, both axes exist and are not empty. *)
Lemma maybe_swap_spatial_dims_Ok_inv ds namex namey ds' :
  maybe_swap_spatial_dims ds namex namey = Ok ds' →
  ∃ xs ys, indexes ds namex = Ok xs ∧ indexes ds namey = Ok ys ∧
           xs ≠ [] ∧ ys ≠ [].
Proof.
  unfold maybe_swap_spatial_dims. simpl.
  intros (xs & Hx & ([lx rx] & Hfx & (ys & Hy & ([ly uy] & Hfy & _)%bind_Ok
            )%bind_Ok)%bind_Ok)%bind_Ok.
  exists xs, ys. split; [done|]. split; [done|].
  split; intros ->; done.
Qed.

(** The indexers of the call, also when both names denote one axis. *)
Lemma maybe_swap_spatial_dims_reversals ds namex namey xs ys :
  indexes ds namex = Ok xs → indexes ds namey = Ok ys →
  xs ≠ [] → ys ≠ [] →
  ∃ swaps,
    maybe_swap_spatial_dims ds namex namey = Ok (isel swaps ds) ∧
    swaps !! namex = (if decide (stored_decreasing xs) then Some SliceRev else None) ∧
    swaps !! namey = (if decide (stored_decreasing ys) then Some SliceRev else None) ∧
    (∀ d ix, swaps !! d = Some ix → ix = SliceRev ∧ (d = namex ∨ d = namey)) ∧
    (¬ stored_decreasing xs → ¬ stored_decreasing ys → swaps = ∅).
Proof.
  intros Hx Hy Hxs Hys.
  destruct (decide (namex = namey)) as [<-|Hne].
  - rewrite Hx in Hy. injection Hy as <-.
    destruct (first_last_Ok xs Hxs) as (lx & rx & Hlx & Hrx & _).
    pose proof (maybe_swap_spatial_dims_Ok ds namex namex xs xs lx rx lx rx
                  Hx Hx Hlx Hrx Hlx Hrx) as Hcall.
    assert (stored_decreasing xs ↔ rx < lx) as Hdx
      by (unfold stored_decreasing; by rewrite Hlx, Hrx).
    eexists. split; [exact Hcall|].
    destruct (decide (rx < lx)) as [Hd|Hd].
    + rewrite decide_True by by apply Hdx. simpl.
      rewrite insert_insert_eq, lookup_insert_eq.
      split; [done|]. split; [done|]. split; [|by rewrite Hdx].
      intros d ix [[<- <-]|[_ ?]]%lookup_insert_Some; [auto|done].
    + rewrite decide_False by by rewrite Hdx. simpl.
      by rewrite lookup_empty.
  - apply maybe_swap_spatial_dims_swaps; done.
Qed.

Lemma reverse_or_same_ne_nil {A} (b : bool) (l : list A) :
  l ≠ [] → (if b then reverse l else l) ≠ [].
Proof.
  intros Hl. destruct b; [|done].
  intros Hr. apply Hl. by rewrite <-(reverse_involutive l), Hr.
Qed.

(** X4.  Normalising twice is normalising once: a dataset that the call
    returned is returned unchanged by a second call. *)
Theorem maybe_swap_spatial_dims_idempotent ds namex namey ds' :
  maybe_swap_spatial_dims ds namex namey = Ok ds' →
  maybe_swap_spatial_dims ds' namex namey = Ok ds'.
Proof.
  intros Hcall.
  destruct (maybe_swap_spatial_dims_Ok_inv _ _ _ _ Hcall)
    as (xs & ys & Hx & Hy & Hxs & Hys).
  destruct (maybe_swap_spatial_dims_reversals ds namex namey xs ys Hx Hy Hxs Hys)
    as (swaps & Hrun & Hsx & Hsy & _ & _).
  rewrite Hrun in Hcall. injection Hcall as <-.
  pose proof (indexes_isel swaps ds _ _ Hx) as Hx'.
  pose proof (indexes_isel swaps ds _ _ Hy) as Hy'.
  rewrite Hsx in Hx'. rewrite Hsy in Hy'.
  pose proof (reverse_orients xs) as [Hox _].
  pose proof (reverse_orients ys) as [Hoy _]. simpl in Hox, Hoy.
  assert (indexes (isel swaps ds) namex =
          Ok (if decide (stored_decreasing xs) then reverse xs else xs)) as Hx''
    by (rewrite Hx'; by destruct (decide (stored_decreasing xs))).
  assert (indexes (isel swaps ds) namey =
          Ok (if decide (stored_decreasing ys) then reverse ys else ys)) as Hy''
    by (rewrite Hy'; by destruct (decide (stored_decreasing ys))).
  destruct (maybe_swap_spatial_dims_reversals (isel swaps ds) namex namey _ _
              Hx'' Hy'') as (swaps' & Hrun' & _ & _ & _ & Hnone).
  - destruct (decide (stored_decreasing xs)); [|done].
    intros Hr. apply Hxs. by rewrite <-(reverse_involutive xs), Hr.
  - destruct (decide (stored_decreasing ys)); [|done].
    intros Hr. apply Hys. by rewrite <-(reverse_involutive ys), Hr.
  - rewrite Hrun', Hnone by done. by rewrite isel_empty.
Qed.

(** X5.  The call returns exactly when both axes exist and have a label;
    a missing axis gives [KeyError], an axis without labels [IndexError]. *)
Theorem maybe_swap_spatial_dims_errors ds namex namey :
  ((∃ ds', maybe_swap_spatial_dims ds namex namey = Ok ds') ↔
   ∃ xs ys, indexes ds namex = Ok xs ∧ indexes ds namey = Ok ys ∧
            xs ≠ [] ∧ ys ≠ []) ∧
  (coords ds !! namex = None →
   maybe_swap_spatial_dims ds namex namey = Raise KeyError) ∧
  (indexes ds namex = Ok [] →
   maybe_swap_spatial_dims ds namex namey = Raise IndexError) ∧
  (∀ xs, indexes ds namex = Ok xs → xs ≠ [] → coords ds !! namey = None →
         maybe_swap_spatial_dims ds namex namey = Raise KeyError) ∧
  (∀ xs, indexes ds namex = Ok xs → xs ≠ [] → indexes ds namey = Ok [] →
         maybe_swap_spatial_dims ds namex namey = Raise IndexError).
Proof.
  split; [split|].
  - intros [ds' Hcall]. by eapply maybe_swap_spatial_dims_Ok_inv.
  - intros (xs & ys & Hx & Hy & Hxs & Hys).
    destruct (maybe_swap_spatial_dims_reversals ds namex namey xs ys Hx Hy Hxs Hys)
      as (swaps & Hrun & _). eauto.
  - assert (∀ name, coords ds !! name = None → indexes ds name = Raise KeyError)
      as Hmissing by (intros name Hnone; unfold indexes; by rewrite Hnone).
    unfold maybe_swap_spatial_dims. split; [|split; [|split]].
    + intros Hnone. by rewrite (Hmissing _ Hnone).
    + by intros ->.
    + intros xs -> Hxs Hnone. simpl.
      destruct (first_last_Ok xs Hxs) as (lx & rx & _ & _ & ->). simpl.
      by rewrite (Hmissing _ Hnone).
    + intros xs -> Hxs ->. simpl.
      by destruct (first_last_Ok xs Hxs) as (lx & rx & _ & _ & ->).
Qed.

(** X6.  The call changes nothing but the order along the spatial axes:
    kind, attributes and the names, dimensions and dtypes of the variables
    are kept, and every coordinate keeps its dimension and, up to their
    order, its labels. *)
Theorem maybe_swap_spatial_dims_preserves ds namex namey ds' :
  maybe_swap_spatial_dims ds namex namey = Ok ds' →
  ds_kind ds' = ds_kind ds ∧ attrs ds' = attrs ds ∧
  (data_vars ds').*1 = (data_vars ds).*1 ∧
  da_dims <$> (data_vars ds').*2 = da_dims <$> (data_vars ds).*2 ∧
  da_dtype <$> (data_vars ds').*2 = da_dtype <$> (data_vars ds).*2 ∧
  (∀ name, coords ds !! name = None → coords ds' !! name = None) ∧
  (∀ name c, coords ds !! name = Some c →
     ∃ c', coords ds' !! name = Some c' ∧ c_dim c' = c_dim c ∧
           c_values c' ≡ₚ c_values c).
Proof.
  intros Hcall.
  destruct (maybe_swap_spatial_dims_Ok_inv _ _ _ _ Hcall)
    as (xs & ys & Hx & Hy & Hxs & Hys).
  destruct (maybe_swap_spatial_dims_reversals ds namex namey xs ys Hx Hy Hxs Hys)
    as (swaps & Hrun & _ & _ & Hrev & _).
  rewrite Hrun in Hcall. injection Hcall as <-.
  split; [done|]. split; [done|]. split; [apply isel_names|].
  split; [apply isel_dims|]. split; [apply isel_dtypes|].
  split.
  - intros name Hnone. by rewrite coords_isel, Hnone.
  - intros name c Hc. rewrite coords_isel, Hc. simpl.
    eexists. split; [done|]. unfold coord_isel.
    destruct (swaps !! c_dim c) as [ix|] eqn:Hix; [|done].
    rewrite (proj1 (Hrev _ _ Hix)). simpl. split; [done|].
    apply reverse_Permutation.
Qed.

Lemma sorted_not_stored_decreasing idx :
  StronglySorted Qclt idx → ¬ stored_decreasing idx.
Proof.
  intros Hs%StronglySorted_Sorted. unfold stored_decreasing.
  destruct (head idx) as [a|] eqn:Ha, (last idx) as [b|] eqn:Hb; try tauto.
  destruct (sorted_head_last Qclt idx a b Hs Ha Hb) as [->|Hlt].
  - apply Qcle_not_lt, Qcle_refl.
  - by apply Qcle_not_lt, Qclt_le_weak.
Qed.

Section get_coords_compose.
Context `{Pandas}.

(** X7.  A grid built with positive steps is already oriented: on it the
    normalisation of the axes returns the grid itself when both axes have a
    label, and fails with [IndexError] when the selection left an axis
    empty. *)
Theorem get_coords_maybe_swap x y time dx dy dt ds :
  0 < dx → 0 < dy → get_coords x y time dx dy dt = Ok ds →
  ∃ xs ys,
    indexes ds "x" = Ok xs ∧ indexes ds "y" = Ok ys ∧
    maybe_swap_spatial_dims ds "x" "y" =
    if decide (xs ≠ [] ∧ ys ≠ []) then Ok ds else Raise IndexError.
Proof.
  intros Hdx Hdy Hds.
  destruct (get_coords_Ok x y time dx dy dt _ _
              (arange_lattice _ _ _ (Qclt_ne _ _ Hdx))
              (arange_lattice _ _ _ (Qclt_ne _ _ Hdy)))
    as (ds0 & Hds0 & Hx & Hy).
  rewrite Hds in Hds0. injection Hds0 as <-.
  rewrite label_slice_sorted in Hx, Hy
    by (by apply lattice_sorted || apply sorted2_le).
  eexists _, _. split; [exact Hx|]. split; [exact Hy|].
  case_decide as Hne.
  - destruct Hne as [Hxs Hys].
    destruct (maybe_swap_spatial_dims_reversals ds "x" "y" _ _ Hx Hy Hxs Hys)
      as (swaps & -> & _ & _ & _ & Hnone).
    rewrite Hnone, isel_empty; [done|..];
      by apply sorted_not_stored_decreasing, StronglySorted_filter, lattice_sorted.
  - unfold maybe_swap_spatial_dims. rewrite Hx. simpl.
    match type of Hx with _ = Ok ?l => destruct l as [|a xs] eqn:Hxs end;
      [done|].
    destruct (first_last_Ok (a :: xs)) as (lx & rx & _ & _ & ->); [done|].
    simpl. rewrite Hy. simpl.
    match type of Hy with _ = Ok ?l => destruct l as [|b ys] eqn:Hys end;
      [done|].
    exfalso. by apply Hne.
Qed.
End get_coords_compose.

(** ** [_as_transform], continued *)


Lemma _as_transform_empty x y :
  x = [] ∨ y = [] → _as_transform x y = Raise IndexError.
Proof.
  unfold _as_transform. intros [-> | ->]; [done|].
  destruct x as [|a x]; [done|].
  by destruct (first_last_Ok (a :: x)) as (? & ? & _ & _ & ->).
Qed.

Lemma _as_transform_single x y :
  x ≠ [] → y ≠ [] → length x = 1%nat ∨ length y = 1%nat →
  _as_transform x y = Raise ZeroDivisionError.
Proof.
  intros Hx Hy Hlen. unfold _as_transform.
  destruct (first_last_Ok x Hx) as (lx & rx & _ & _ & ->).
  destruct (first_last_Ok y Hy) as (ly & uy & _ & _ & ->). simpl.
  unfold py_div.
  destruct (decide (length x = 1%nat)) as [->|Hx1]; [done|].
  assert (1 < length x)%nat as Hx2.
  { destruct x as [|? [|? ?]]; simpl in *; try done; lia. }
  rewrite (decide_False (P := Qc_of_nat (length x - 1) = 0))
    by (apply Qc_of_nat_ne_0; lia).
  simpl. destruct Hlen as [?| ->]; [done|]. done.
Qed.

(** X8.  The transform exists exactly for axes of at least two labels: an
    empty axis gives [IndexError], an axis of one label (the other axis not
    empty) a [ZeroDivisionError]. *)
Theorem _as_transform_errors x y :
  ((∃ t, _as_transform x y = Ok t) ↔ (2 ≤ length x)%nat ∧ (2 ≤ length y)%nat) ∧
  (x = [] ∨ y = [] → _as_transform x y = Raise IndexError) ∧
  (x ≠ [] → y ≠ [] → length x = 1%nat ∨ length y = 1%nat →
   _as_transform x y = Raise ZeroDivisionError).
Proof.
  split; [|split; [apply _as_transform_empty|apply _as_transform_single]].
  split.
  - intros [t Ht].
    destruct x as [|a [|a' x]], y as [|b [|b' y]]; simpl;
      try (rewrite _as_transform_empty in Ht by auto; done);
      try (rewrite _as_transform_single in Ht by auto; done).
    lia.
  - intros [? ?]. by apply _as_transform_Ok.
Qed.


Lemma _as_transform_lengths x y :
  (∃ t, _as_transform x y = Ok t) → (2 ≤ length x)%nat ∧ (2 ≤ length y)%nat.
Proof.
  intros [t Ht].
  destruct x as [|a [|a' x]], y as [|b [|b' y]]; simpl;
    try (rewrite _as_transform_empty in Ht by auto; done);
    try (rewrite _as_transform_single in Ht by auto; done).
  lia.
Qed.

(** ** [regrid], continued *)

Lemma mapM_Ok_inv {A B} (f : A → result B) l k :
  mapM f l = Ok k → Forall2 (λ x y, f x = Ok y) l k.
Proof.
  revert k. induction l as [|x l IH]; intros k Hk; simpl in Hk.
  - injection Hk as <-. constructor.
  - apply bind_Ok in Hk as (y & Hy & (k' & Hk' & [= <-])%bind_Ok).
    constructor; [done|by apply IH].
Qed.

Section regrid_more.
Context `{Rasterio}.

Lemma mapM_apply_reproject_missing kw namey namex dvs :
  (∃ v : string * DataArray,
     v ∈ dvs ∧ ¬ (namey ∈ da_dims v.2 ∧ namex ∈ da_dims v.2)) →
  mapM (λ nv : string * DataArray,
          da ← apply_reproject kw namey namex nv.2; mret (nv.1, da)) dvs
  = Raise ValueError.
Proof.
  induction dvs as [|[n da] dvs IH]; intros (v & Hv & Hmiss).
  - by apply elem_of_nil in Hv.
  - simpl.
    destruct (decide (namey ∈ da_dims da ∧ namex ∈ da_dims da)) as [Hok|Hno].
    + rewrite IH; [|apply elem_of_cons in Hv as [->|Hv]; [done|eauto]].
      unfold apply_reproject. by rewrite decide_True.
    + unfold apply_reproject. by rewrite decide_False.
Qed.

(** What a successful call has done. *)
Lemma regrid_Ok_inv ds dimx dimy kwargs out :
  regrid ds dimx dimy kwargs = Ok out →
  ∃ swaps kw xs ys,
    indexes ds (ix_name dimx) = Ok xs ∧ indexes ds (ix_name dimy) = Ok ys ∧
    (2 ≤ length xs)%nat ∧ (2 ≤ length ys)%nat ∧
    (2 ≤ length (ix_values dimx))%nat ∧ (2 ≤ length (ix_values dimy))%nat ∧
    (∀ d ix, swaps !! d = Some ix →
             ix = SliceRev ∧ (d = ix_name dimx ∨ d = ix_name dimy)) ∧
    size (list_to_set (da_dtype <$> (data_vars ds).*2) : gset string) = 1%nat ∧
    mapM (λ nv : string * DataArray,
            da ← apply_reproject kw (ix_name dimy) (ix_name dimx) nv.2;
            mret (nv.1, da))
         (data_vars (isel swaps ds)) = Ok (data_vars out) ∧
    coords out =
      <[ix_name dimx := {| c_dim := ix_name dimx; c_values := ix_values dimx |}]>
      (<[ix_name dimy := {| c_dim := ix_name dimy; c_values := ix_values dimy |}]>
       (filter (λ kc, c_dim kc.2 ≠ ix_name dimy ∧ c_dim kc.2 ≠ ix_name dimx)
               (coords (isel swaps ds)))) ∧
    attrs out = attrs ds ∧ ds_kind out = ds_kind ds.
Proof.
  unfold regrid. cbv zeta.
  intros (ds1 & Hswap & (ix & Hix & (iy & Hiy & (src & Hsrc & (dst & Hdst & Hrest
            )%bind_Ok)%bind_Ok)%bind_Ok)%bind_Ok)%bind_Ok.
  destruct (maybe_swap_spatial_dims_Ok_inv _ _ _ _ Hswap)
    as (xs & ys & Hx & Hy & Hxs & Hys).
  destruct (maybe_swap_spatial_dims_reversals ds _ _ xs ys Hx Hy Hxs Hys)
    as (swaps & Hrun & Hsx & Hsy & Hrev & _).
  rewrite Hrun in Hswap. injection Hswap as <-.
  match type of Hrest with
  | context [decide ?P] => destruct (decide P) as [Hsize|?]; [|done]
  end.
  apply bind_Ok in Hrest as (vars & Hvars & [= <-]).
  assert (∃ t, _as_transform ix iy = Ok t) as Hsrc' by eauto.
  assert (∃ t, _as_transform (ix_values dimx) (ix_values dimy) = Ok t) as Hdst'
    by eauto.
  apply _as_transform_lengths in Hsrc' as [Hlx Hly].
  apply _as_transform_lengths in Hdst' as [Hldx Hldy].
  erewrite indexes_isel in Hix, Hiy by done.
  rewrite Hsx in Hix. rewrite Hsy in Hiy.
  injection Hix as <-. injection Hiy as <-.
  exists swaps. eexists. exists xs, ys.
  split; [done|]. split; [done|].
  split; [destruct (decide (stored_decreasing xs)); simpl in Hlx;
            by rewrite ?length_reverse in Hlx|].
  split; [destruct (decide (stored_decreasing ys)); simpl in Hly;
            by rewrite ?length_reverse in Hly|].
  split; [done|]. split; [done|]. split; [done|].
  split; [|split; [exact Hvars|done]].
  assert (∀ (k : xr_kind) (a : list DataArray),
            match k with KDataset => a | KDataArray => a end = a) as Hk
    by (by intros []).
  rewrite Hk, isel_dtypes in Hsize. done.
Qed.
(** X10.  A source axis with a single label makes the call fail with
    [ZeroDivisionError], whatever the variables and their dtypes: the pixel
    size is a quotient by the number of labels less one. *)
Theorem regrid_single_label ds dimx dimy kwargs xs ys :
  indexes ds (ix_name dimx) = Ok xs → indexes ds (ix_name dimy) = Ok ys →
  xs ≠ [] → ys ≠ [] → length xs = 1%nat ∨ length ys = 1%nat →
  regrid ds dimx dimy kwargs = Raise ZeroDivisionError.
Proof.
  intros Hx Hy Hxs Hys Hone.
  destruct (maybe_swap_spatial_dims_reversals ds _ _ xs ys Hx Hy Hxs Hys)
    as (swaps & Hrun & Hsx & Hsy & _ & _).
  unfold regrid. cbv zeta. rewrite Hrun. simpl.
  erewrite !indexes_isel by done. rewrite Hsx, Hsy.
  assert (∀ b b' : bool,
            _as_transform (if b then reverse xs else xs)
                          (if b' then reverse ys else ys)
            = Raise ZeroDivisionError) as Hraise.
  { intros b b'. apply _as_transform_single.
    - by apply reverse_or_same_ne_nil.
    - by apply reverse_or_same_ne_nil.
    - by destruct b, b'; rewrite ?length_reverse. }
  destruct (decide (stored_decreasing xs)), (decide (stored_decreasing ys));
    simpl.
  - by rewrite (Hraise true true).
  - by rewrite (Hraise true false).
  - by rewrite (Hraise false true).
  - by rewrite (Hraise false false).
Qed.

(** X11.  A dataset without data variables is rejected: on well-formed axes
    the call raises [AssertionError]. *)
Theorem regrid_no_variables ds dimx dimy kwargs xs ys :
  ix_name dimx ≠ ix_name dimy →
  indexes ds (ix_name dimx) = Ok xs → indexes ds (ix_name dimy) = Ok ys →
  (2 ≤ length xs)%nat → (2 ≤ length ys)%nat →
  (2 ≤ length (ix_values dimx))%nat → (2 ≤ length (ix_values dimy))%nat →
  data_vars ds = [] →
  regrid ds dimx dimy kwargs = Raise AssertionError.
Proof.
  intros Hne Hx Hy Hlx Hly Hldx Hldy Hvars.
  destruct (regrid_reaches_check ds dimx dimy kwargs xs ys
              Hne Hx Hy Hlx Hly Hldx Hldy) as (swaps & kw & mk & _ & ->).
  rewrite Hvars. simpl. by rewrite decide_False.
Qed.

(** X12.  A variable that is not dimensioned on both spatial axes makes the
    call fail with [ValueError], when the axes are well formed and the
    variables share one dtype. *)
Theorem regrid_missing_dim ds dimx dimy kwargs xs ys :
  ix_name dimx ≠ ix_name dimy →
  indexes ds (ix_name dimx) = Ok xs → indexes ds (ix_name dimy) = Ok ys →
  (2 ≤ length xs)%nat → (2 ≤ length ys)%nat →
  (2 ≤ length (ix_values dimx))%nat → (2 ≤ length (ix_values dimy))%nat →
  size (list_to_set (da_dtype <$> (data_vars ds).*2) : gset string) = 1%nat →
  (∃ v : string * DataArray,
     v ∈ data_vars ds ∧
     ¬ (ix_name dimy ∈ da_dims v.2 ∧ ix_name dimx ∈ da_dims v.2)) →
  regrid ds dimx dimy kwargs = Raise ValueError.
Proof.
  intros Hne Hx Hy Hlx Hly Hldx Hldy Hsize ([n da] & Hv & Hmiss).
  destruct (regrid_reaches_check ds dimx dimy kwargs xs ys
              Hne Hx Hy Hlx Hly Hldx Hldy) as (swaps & kw & mk & _ & ->).
  rewrite decide_True by done.
  rewrite mapM_apply_reproject_missing; [done|].
  exists (n, da_isel swaps da). split; [|done].
  unfold isel. simpl. apply list_elem_of_fmap. by exists (n, da).
Qed.

(** X13.  The dataset that the call returns has the target labels as its x
    index (and, the two axes being different, as its y index), the
    attributes and the kind of the source; a coordinate of the source on
    another dimension is kept as it is, and beside the two indexes the
    result has no other coordinate: coordinates on the spatial dimensions,
    such as lon and lat, are dropped. *)
Theorem regrid_output_coords ds dimx dimy kwargs out :
  regrid ds dimx dimy kwargs = Ok out →
  indexes out (ix_name dimx) = Ok (ix_values dimx) ∧
  (ix_name dimx ≠ ix_name dimy →
   indexes out (ix_name dimy) = Ok (ix_values dimy)) ∧
  attrs out = attrs ds ∧ ds_kind out = ds_kind ds ∧
  (∀ name c,
     name ≠ ix_name dimx → name ≠ ix_name dimy →
     (coords out !! name = Some c ↔
      coords ds !! name = Some c ∧
      c_dim c ≠ ix_name dimx ∧ c_dim c ≠ ix_name dimy)).
Proof.
  intros Hout.
  destruct (regrid_Ok_inv _ _ _ _ _ Hout)
    as (swaps & kw & xs & ys & _ & _ & _ & _ & _ & _ & Hrev & _ & _
        & Hcoords & Hattrs & Hkind).
  split; [|split; [|split; [done|split; [done|]]]].
  - unfold indexes. rewrite Hcoords, lookup_insert_eq. simpl.
    by rewrite decide_True.
  - intros Hne. unfold indexes.
    rewrite Hcoords, lookup_insert_ne, lookup_insert_eq by done. simpl.
    by rewrite decide_True.
  - intros name c Hnx Hny.
    rewrite Hcoords, !lookup_insert_ne by done.
    rewrite map_lookup_filter_Some, coords_isel. simpl.
    split.
    + intros [Hc [Hdy Hdx]].
      destruct (coords ds !! name) as [c0|] eqn:Hc0; [|done].
      simpl in Hc. injection Hc as <-.
      unfold coord_isel in *.
      destruct (swaps !! c_dim c0) as [ix|] eqn:Hix; [|done].
      destruct (Hrev _ _ Hix) as [_ [?|?]]; simpl in *; congruence.
    + intros (-> & Hdx & Hdy). simpl. unfold coord_isel.
      destruct (swaps !! c_dim c) as [ix|] eqn:Hix; [|done].
      destruct (Hrev _ _ Hix) as [_ [?|?]]; congruence.
Qed.

(** X14.  The variables of the result are those of the source, in their
    order and with their names and dtypes; each has the non-spatial
    dimensions of its source in their order, followed by y and x. *)
Theorem regrid_output_variables ds dimx dimy kwargs out :
  regrid ds dimx dimy kwargs = Ok out →
  Forall2 (λ v v' : string * DataArray,
             v'.1 = v.1 ∧ da_dtype v'.2 = da_dtype v.2 ∧
             da_dims v'.2 =
               filter (λ d, d ≠ ix_name dimy ∧ d ≠ ix_name dimx) (da_dims v.2)
               ++ [ix_name dimy; ix_name dimx] ∧
             ix_name dimy ∈ da_dims v.2 ∧ ix_name dimx ∈ da_dims v.2)
          (data_vars ds) (data_vars out).
Proof.
  intros Hout.
  destruct (regrid_Ok_inv _ _ _ _ _ Hout)
    as (swaps & kw & xs & ys & _ & _ & _ & _ & _ & _ & _ & _ & Hvars & _).
  apply mapM_Ok_inv in Hvars. unfold isel in Hvars. simpl in Hvars.
  apply Forall2_fmap_l in Hvars.
  eapply Forall2_impl; [exact Hvars|].
  intros [n da] [n' da']. simpl. unfold apply_reproject. simpl.
  case_decide as Hd; [|done]. simpl. intros [= <- <-]. simpl.
  by destruct Hd.
Qed.
End regrid_more.

(** ** [reproject_shapes], continued *)

Lemma transform_compose (f g : point → point) geom :
  transform g (transform f geom) = transform (g ∘ f) geom.
Proof.
  unfold transform. simpl. f_equal.
  - by rewrite <-list_fmap_compose.
  - rewrite <-list_fmap_compose. apply list_fmap_ext.
    intros i ring _. simpl. by rewrite <-list_fmap_compose.
Qed.

Section reproject_shapes_more.
Context `{Pyproj}.

(** X15.  Reprojecting a result again is reprojecting once by the composed
    transform: the labels and their order are those of the first collection,
    and every geometry is the original one under the second transform after
    the first. *)
Theorem reproject_shapes_compose shapes_ A B C f g :
  from_crs A B = Ok f → from_crs B C = Ok g → shapes_wf shapes_ →
  ∃ there onward,
    reproject_shapes shapes_ A B = Ok there ∧
    reproject_shapes there B C = Ok onward ∧
    shapes_container onward = shapes_container shapes_ ∧
    shapes_labels onward = shapes_labels shapes_ ∧
    shapes_geoms onward = transform (g ∘ f) <$> shapes_geoms shapes_.
Proof.
  intros Hf Hg Hwf.
  destruct (reproject_shapes_observed shapes_ A B f Hf Hwf)
    as (there & Hthere & Hk1 & _ & Hl1 & Hg1 & Hwf1).
  destruct (reproject_shapes_observed there B C g Hg Hwf1)
    as (onward & Honward & Hk2 & _ & Hl2 & Hg2 & _).
  exists there, onward. split; [done|]. split; [done|].
  split; [congruence|]. split; [congruence|].
  rewrite Hg2, Hg1, <-list_fmap_compose. apply list_fmap_ext.
  intros i geom _. apply transform_compose.
Qed.
End reproject_shapes_more.

(** ** [compute_indicatormatrix], continued *)

Lemma enumerate_snoc {A} (l : list A) a :
  enumerate (l ++ [a]) = enumerate l ++ [(length l, a)].
Proof.
  unfold enumerate. rewrite length_app. simpl.
  rewrite seq_app. simpl.
  rewrite zip_with_app by by rewrite length_seq. done.
Qed.

Lemma id_index_snoc orig o :
  id_index (orig ++ [o]) = <[obj_id o := length orig]> (id_index orig).
Proof. unfold id_index. by rewrite enumerate_snoc, foldl_app. Qed.

(** The index is a table of positions: a key is the id of the object at the
    position it is bound to. *)
Lemma id_index_Some orig k j :
  id_index orig !! k = Some j → ∃ o, orig !! j = Some o ∧ obj_id o = k.
Proof.
  induction orig as [|o orig IH] using rev_ind;
    [unfold id_index; simpl; by rewrite lookup_empty|].
  rewrite id_index_snoc.
  intros [[<- <-]|[_ Hj]]%lookup_insert_Some.
  - exists o. split; [|done]. by rewrite lookup_app_r, Nat.sub_diag.
  - destruct (IH Hj) as (o' & Ho' & Hid). exists o'. split; [|done].
    by apply lookup_app_l_Some.
Qed.

(** With distinct objects every object is bound to its own position. *)
Lemma id_index_NoDup orig j o :
  NoDup (obj_id <$> orig) → orig !! j = Some o →
  id_index orig !! obj_id o = Some j.
Proof.
  induction orig as [|o0 orig IH] using rev_ind; [done|].
  rewrite fmap_app, id_index_snoc. simpl.
  intros Hnd Hj. apply NoDup_app in Hnd as (Hnd & Hdisj & _).
  apply lookup_app_Some in Hj as [Hj|[Hlen Hj]].
  - rewrite lookup_insert_ne; [by apply IH|].
    intros Heq. apply (Hdisj (obj_id o)).
    + apply list_elem_of_fmap. exists o. split; [done|].
      by eapply list_elem_of_lookup_2.
    + rewrite Heq. left.
  - destruct (j - length orig)%nat as [|n] eqn:Hn; [|by destruct n].
    injection Hj as <-. assert (j = length orig) as -> by lia.
    apply lookup_insert_eq.
Qed.

Lemma lil_setitem_lookup m i j x m' k v :
  lil_setitem m i j x = Ok m' → lil_entries m' !! k = Some v →
  (k = (i, j) ∧ v = x ∧ x ≠ 0) ∨ (k ≠ (i, j) ∧ lil_entries m !! k = Some v).
Proof.
  unfold lil_setitem. case_decide; [|done]. intros [= <-]. simpl.
  case_decide as Hx.
  - intros [? ?]%lookup_delete_Some. by right.
  - intros [[<- <-]|[? ?]]%lookup_insert_Some; [by left|by right].
Qed.

Lemma lil_setitem_stored m i j x m' :
  lil_setitem m i j x = Ok m' → x ≠ 0 → lil_entries m' !! (i, j) = Some x.
Proof.
  unfold lil_setitem. case_decide; [|done]. intros [= <-] Hx. simpl.
  rewrite decide_False by done. apply lookup_insert_eq.
Qed.

Lemma lil_setitem_other m i j x m' k :
  lil_setitem m i j x = Ok m' → k ≠ (i, j) →
  lil_entries m' !! k = lil_entries m !! k.
Proof.
  unfold lil_setitem. case_decide; [|done]. intros [= <-] Hk. simpl.
  case_decide; [by rewrite lookup_delete_ne|by rewrite lookup_insert_ne].
Qed.

Lemma for_each_visits {A S} (Post : S → Prop) (body : S → A → result S)
    l a acc acc' :
  for_each body l acc = Ok acc' → a ∈ l →
  (∀ s s', body s a = Ok s' → Post s') →
  (∀ s b s', b ∈ l → Post s → body s b = Ok s' → Post s') →
  Post acc'.
Proof.
  revert acc. induction l as [|b l IH]; intros acc Hrun Ha Hset Hkeep.
  - by apply elem_of_nil in Ha.
  - simpl in Hrun. apply bind_Ok in Hrun as (s & Hs & Hrun).
    apply elem_of_cons in Ha as [->|Ha].
    + eapply (for_each_inv Post); [|by eapply Hset|exact Hrun].
      intros s1 b1 s2 Hb1. apply Hkeep. by right.
    + apply (IH s); [done..|].
      intros s1 b1 s2 Hb1. apply Hkeep. by right.
Qed.

Lemma for_each_id {A S} (body : S → A → result S) l acc :
  (∀ s a, a ∈ l → body s a = Ok s) → for_each body l acc = Ok acc.
Proof.
  induction l as [|a l IH]; intros Hbody; [done|].
  simpl. rewrite Hbody by left. simpl. apply IH.
  intros s b Hb. apply Hbody. by right.
Qed.

Lemma NoDup_fmap_eq {A B} (f : A → B) (l : list A) x y :
  NoDup (f <$> l) → x ∈ l → y ∈ l → f x = f y → x = y.
Proof.
  intros Hnd (i & Hi)%list_elem_of_lookup (j & Hj)%list_elem_of_lookup Hxy.
  assert (i = j) as ->; [|congruence].
  eapply NoDup_lookup; [exact Hnd|..].
  - by rewrite list_lookup_fmap, Hi.
  - by rewrite list_lookup_fmap, Hj, Hxy.
Qed.

Section compute_indicatormatrix_more.
Context `{Pyproj, GEOS, STRtree}.

(** What one candidate does to the matrix. *)
Lemma indicator_cell_Ok_inv idx i d m o m' :
  indicator_cell idx i d m o = Ok m' →
  (intersects (obj_geom o) d = false ∧ m' = m) ∨
  (∃ j, intersects (obj_geom o) d = true ∧ idx !! obj_id o = Some j ∧
        area (obj_geom o) ≠ 0 ∧ lil_setitem m i j (area_share d o) = Ok m').
Proof.
  unfold indicator_cell, area_share.
  destruct (intersects (obj_geom o) d); [|intros [= <-]; by left].
  intros (j & Hj & (v & Hv & Hset)%bind_Ok)%bind_Ok. right.
  unfold getitem in Hj. destruct (idx !! obj_id o) as [j'|] eqn:Hidx; [|done].
  injection Hj as ->.
  unfold py_div in Hv. case_decide as Hz; [done|]. injection Hv as <-.
  by exists j.
Qed.

(** X16.  Every entry stored in a returned matrix comes from a pair that
    intersects: the entry at (i, j) is the area of the intersection of the
    i-th destination geometry with an origin object, divided by the non-zero
    area of that object, and j is the position that the object's id is
    indexed at, which is the object's own position when the objects are
    distinct.  The matrix has the shape (len(dest), len(orig)). *)
Theorem indicator_entries_sound orig dest orig_crs dest_crs dest' m :
  tree_query_correct →
  reproject_shapes (dest_shapes dest) dest_crs orig_crs = Ok dest' →
  compute_indicatormatrix orig dest orig_crs dest_crs = Ok m →
  lil_shape m = (length (iter_shapes dest'), length orig) ∧
  ∀ i j v, lil_entries m !! (i, j) = Some v →
    ∃ d o,
      iter_shapes dest' !! i = Some (VGeom d) ∧ o ∈ orig ∧
      id_index orig !! obj_id o = Some j ∧
      intersects (obj_geom o) d = true ∧ area (obj_geom o) ≠ 0 ∧
      v = area_share d o ∧
      (NoDup (obj_id <$> orig) → orig !! j = Some o).
Proof.
  intros Htree Hdest Hm. unfold compute_indicatormatrix in Hm.
  rewrite Hdest in Hm. simpl in Hm.
  set (I := λ m : lil_matrix,
         lil_shape m = (length (iter_shapes dest'), length orig) ∧
         ∀ i j v, lil_entries m !! (i, j) = Some v →
           ∃ d o,
             iter_shapes dest' !! i = Some (VGeom d) ∧ o ∈ orig ∧
             id_index orig !! obj_id o = Some j ∧
             intersects (obj_geom o) d = true ∧ area (obj_geom o) ≠ 0 ∧
             v = area_share d o ∧
             (NoDup (obj_id <$> orig) → orig !! j = Some o)).
  apply (for_each_inv I) in Hm; [done| |].
  - intros s [i [d|k]] s' Hin%enumerate_elem Hs; unfold indicator_row; simpl.
    + apply (for_each_inv I); [|done].
      intros s1 o s2 [Ho _]%tree_query_elem [Hshape Hs1]; [|done].
      intros [[_ ->]|(j & Hint & Hj & Hz & Hset)]%indicator_cell_Ok_inv;
        [done|].
      split.
      { unfold lil_setitem in Hset. case_decide; [|done].
        by injection Hset as <-. }
      intros i' j' v Hv.
      destruct (lil_setitem_lookup _ _ _ _ _ _ _ Hset Hv)
        as [([= -> ->] & -> & _)|[_ Hold]]; [|by apply Hs1].
      exists d, o. repeat split; try done.
      intros Hnd. destruct (id_index_Some _ _ _ Hj) as (o' & Ho' & Hid).
      rewrite Ho'. f_equal.
      eapply (NoDup_fmap_eq obj_id); [done| |done|done].
      by eapply list_elem_of_lookup_2.
    + destruct orig; [|done]. by intros [= <-].
  - split; [done|]. intros i j v. simpl. by rewrite lookup_empty.
Qed.

(** A candidate keeps the entry of another pair, and of its own pair. *)
Lemma indicator_cell_keeps orig i j d o i' d' m o' m' :
  NoDup (obj_id <$> orig) → orig !! j = Some o → o' ∈ orig →
  (i' = i → d' = d) → area_share d o ≠ 0 →
  lil_entries m !! (i, j) = Some (area_share d o) →
  indicator_cell (id_index orig) i' d' m o' = Ok m' →
  lil_entries m' !! (i, j) = Some (area_share d o).
Proof.
  intros Hnd Hj Ho' Hrow Hq Hm.
  intros [[_ ->]|(j' & Hint & Hj' & Hz & Hset)]%indicator_cell_Ok_inv; [done|].
  destruct (decide ((i, j) = (i', j'))) as [[= <- <-]|Hne].
  - destruct (id_index_Some _ _ _ Hj') as (o'' & Ho'' & Hid).
    rewrite Hj in Ho''. injection Ho'' as <-.
    assert (o' = o) as ->.
    { eapply (NoDup_fmap_eq obj_id); [done|done| |done].
      by eapply list_elem_of_lookup_2. }
    rewrite (Hrow eq_refl) in Hset. by eapply lil_setitem_stored.
  - by rewrite (lil_setitem_other _ _ _ _ _ _ Hset Hne).
Qed.

(** X17.  With distinct origin objects, a returned matrix holds the entry of
    every pair that intersects with a non-zero quotient: at (i, j) it stores
    the area of the intersection of the i-th destination geometry with the
    j-th origin object divided by the area of that object. *)
Theorem indicator_entries_complete orig dest orig_crs dest_crs dest' m i j d o :
  tree_query_correct → intersects_in_envelopes →
  NoDup (obj_id <$> orig) →
  reproject_shapes (dest_shapes dest) dest_crs orig_crs = Ok dest' →
  compute_indicatormatrix orig dest orig_crs dest_crs = Ok m →
  iter_shapes dest' !! i = Some (VGeom d) → orig !! j = Some o →
  intersects (obj_geom o) d = true → area_share d o ≠ 0 →
  lil_entries m !! (i, j) = Some (area_share d o).
Proof.
  intros Htree Henv Hnd Hdest Hm Hi Hj Hint Hq.
  unfold compute_indicatormatrix in Hm. rewrite Hdest in Hm. simpl in Hm.
  assert (o ∈ orig) as Ho by by eapply list_elem_of_lookup_2.
  eapply (for_each_visits
            (λ m, lil_entries m !! (i, j) = Some (area_share d o)))
    in Hm; [done|by apply enumerate_elem| |].
  - intros s s'. unfold indicator_row. simpl. intros Hrow.
    eapply (for_each_visits
              (λ m, lil_entries m !! (i, j) = Some (area_share d o)))
      in Hrow; [done|apply tree_query_elem; eauto| |].
    + intros s1 s2.
      intros [[Hno _]|(j' & _ & Hj' & Hz & Hset)]%indicator_cell_Ok_inv;
        [congruence|].
      rewrite (id_index_NoDup _ _ _ Hnd Hj) in Hj'. injection Hj' as <-.
      by eapply lil_setitem_stored.
    + intros s1 o' s2 [Ho' _]%tree_query_elem Hs1 Hcell; [|done].
      by eapply indicator_cell_keeps.
  - intros s [i' [d'|k]] s' Hin%enumerate_elem Hs; unfold indicator_row; simpl.
    + apply (for_each_inv
               (λ m, lil_entries m !! (i, j) = Some (area_share d o)));
        [|done].
      intros s1 o' s2 [Ho' _]%tree_query_elem Hs1 Hcell; [|done].
      eapply indicator_cell_keeps; [done..| |done|done|done].
      intros ->. congruence.
    + destruct orig; [|done]. by intros [= <-].
Qed.

(** X18.  When no origin polygon intersects a destination polygon, and in
    particular when one of the two collections is empty, the call returns
    the matrix without entries, of the shape (len(dest), len(orig)). *)
Theorem indicator_disjoint_empty orig dest orig_crs dest_crs dest' :
  tree_query_correct →
  reproject_shapes (dest_shapes dest) dest_crs orig_crs = Ok dest' →
  shapes_container dest' ≠ Mapping →
  (∀ o d, o ∈ orig → VGeom d ∈ iter_shapes dest' →
          intersects (obj_geom o) d = false) →
  compute_indicatormatrix orig dest orig_crs dest_crs
  = Ok {| lil_shape := (length (iter_shapes dest'), length orig);
          lil_entries := ∅ |}.
Proof.
  intros Htree Hdest Hkind Hdisj. unfold compute_indicatormatrix.
  rewrite Hdest. simpl. apply for_each_id.
  intros s [i v] Hin%enumerate_elem.
  assert (v ∈ iter_shapes dest') as Hv by by eapply list_elem_of_lookup_2.
  destruct (iter_shapes_not_mapping dest' Hkind v Hv) as [d ->].
  unfold indicator_row. simpl. apply for_each_id.
  intros s1 o [Ho _]%tree_query_elem; [|done].
  unfold indicator_cell. by rewrite (Hdisj o d Ho Hv).
Qed.
End compute_indicatormatrix_more.

(** ** [grid_cell_areas], continued *)




Section grid_cell_areas_more.
Context `{Pyproj, GEOS, Ufuncs}.


(** X20.  When the number of grid cells is not the product of the shape, the
    call fails with [ValueError]. *)
Theorem grid_cell_areas_shape_mismatch cutout f :
  cutout_crs cutout ≠ 4326%Z →
  from_crs (cutout_crs cutout) 3035 = Ok f →
  length (cutout_grid_cells cutout)
    ≠ ((cutout_shape cutout).1 * (cutout_shape cutout).2)%nat →
  grid_cell_areas cutout = Raise ValueError.
Proof.
  intros Hcrs Hf Hlen. unfold grid_cell_areas.
  rewrite decide_False by done.
  rewrite (reproject_shapes_Ok _ _ _ f Hf) by done. simpl.
  unfold reshape2. by rewrite decide_False by by rewrite !length_fmap.
Qed.
End grid_cell_areas_more.

(** ** [spdiag] *)

Lemma wrap32_small z : (0 ≤ z < 2 ^ 31)%Z → wrap32 z = z.
Proof. intros Hz. unfold wrap32. rewrite Z.mod_small; lia. Qed.

Lemma arange_int32_small n :
  (Z.of_nat n ≤ 2 ^ 31)%Z → arange_int32 n = Z.of_nat <$> seq 0 n.
Proof.
  intros Hn. unfold arange_int32. apply list_eq. intros i.
  rewrite !list_lookup_fmap.
  destruct (seq 0 n !! i) as [k|] eqn:Hk; [|done]. simpl.
  apply lookup_seq in Hk as [-> Hi]. by rewrite wrap32_small by lia.
Qed.

Lemma take_one_drop {A} (l : list A) i x :
  l !! i = Some x → take 1 (drop i l) = [x]%list.
Proof.
  revert i. induction l as [|a l IH]; intros [|i] Hi; simplify_eq/=; eauto.
Qed.

Lemma spdiag_Ok (v : list Qc) :
  (Z.of_nat (length v) < 2 ^ 31)%Z →
  spdiag v = Ok {| csr_data := v;
                   csr_indices := Z.of_nat <$> seq 0 (length v);
                   csr_indptr := Z.of_nat <$> seq 0 (length v + 1);
                   csr_shape := (length v, length v) |}.
Proof.
  intros Hv. unfold spdiag. cbv zeta.
  rewrite arange_int32_small by lia.
  rewrite length_fmap, length_seq.
  replace (length v + 1 - 1)%nat with (length v) by lia.
  assert (take (length v) (Z.of_nat <$> seq 0 (length v + 1))
          = Z.of_nat <$> seq 0 (length v)) as ->.
  { rewrite seq_app, fmap_app, take_app_length'; [done|].
    by rewrite length_fmap, length_seq. }
  unfold csr_new. simpl.
  rewrite decide_False by (rewrite length_fmap, length_seq; lia).
  rewrite decide_False
    by (rewrite list_lookup_fmap, lookup_seq_lt by lia; naive_solver).
  rewrite decide_False by (rewrite length_fmap, length_seq; lia).
  rewrite decide_False; [done|].
  rewrite seq_app, fmap_app. simpl. rewrite last_snoc. simpl.
  rewrite length_fmap, length_seq. lia.
Qed.

Lemma spdiag_row (v : list Qc) m i x :
  (Z.of_nat (length v) < 2 ^ 31)%Z →
  spdiag v = Ok m → v !! i = Some x →
  csr_row m i = [(Z.of_nat i, x)]%list.
Proof.
  intros Hv Hm Hi. rewrite spdiag_Ok in Hm by done. injection Hm as <-.
  pose proof (lookup_lt_Some _ _ _ Hi) as Hlt.
  unfold csr_row. simpl.
  rewrite !list_lookup_fmap, !lookup_seq_lt by lia. simpl.
  replace (Z.to_nat (Z.of_nat (S i)) - Z.to_nat (Z.of_nat i))%nat with 1%nat by lia.
  rewrite Nat2Z.id. apply take_one_drop.
  apply lookup_zip_Some. split; [|done].
  by rewrite list_lookup_fmap, lookup_seq_lt by lia.
Qed.

(** X21.  For fewer than 2^31 values, [spdiag] returns a square matrix of
    their number in which row [i] stores one entry: the value number [i], in
    column [i]. *)
Theorem spdiag_diagonal (v : list Qc) :
  (Z.of_nat (length v) < 2 ^ 31)%Z →
  ∃ m, spdiag v = Ok m ∧
       csr_shape m = (length v, length v) ∧
       ∀ i, csr_row m i =
            match v !! i with Some x => [(Z.of_nat i, x)]%list | None => [] end.
Proof.
  intros Hv. eexists. split; [by apply spdiag_Ok|]. split; [done|].
  intros i. destruct (v !! i) as [x|] eqn:Hi.
  - by eapply spdiag_row; [| apply spdiag_Ok |].
  - apply lookup_ge_None in Hi. unfold csr_row. simpl.
    rewrite !list_lookup_fmap.
    rewrite (proj2 (lookup_ge_None (seq 0 (length v + 1)) (S i)))
      by (rewrite length_seq; lia).
    simpl. by destruct (seq 0 (length v + 1) !! i).
Qed.

(** X22.  The product of [spdiag v] with a vector of the same length is the
    product of the two, position by position. *)
Theorem spdiag_dot (v x : list Qc) m :
  (Z.of_nat (length v) < 2 ^ 31)%Z →
  spdiag v = Ok m → length x = length v →
  csr_dot m x = Ok (zip_with Qcmult v x).
Proof.
  intros Hv Hm Hx.
  assert (csr_shape m = (length v, length v)) as Hshape
    by (rewrite spdiag_Ok in Hm by done; by injection Hm as <-).
  unfold csr_dot. rewrite Hshape. simpl.
  rewrite decide_True by done. f_equal.
  apply list_eq. intros i. rewrite list_lookup_fmap, lookup_zip_with.
  destruct (v !! i) as [a|] eqn:Ha; simpl.
  - pose proof (lookup_lt_Some _ _ _ Ha) as Hlt.
    rewrite lookup_seq_lt by done. simpl.
    rewrite (spdiag_row v m i a) by done. simpl.
    rewrite Nat2Z.id.
    destruct (x !! i) as [b|] eqn:Hb;
      [|apply lookup_ge_None in Hb; lia].
    simpl. f_equal. unfold Qcsum. simpl. ring.
  - apply lookup_ge_None in Ha.
    by rewrite (proj2 (lookup_ge_None (seq 0 (length v)) i))
      by (rewrite length_seq; lia).
Qed.

(** * The further properties on data *)

Ltac split_conj := repeat match goal with |- _ ∧ _ => split end.

Lemma get_coords_coarse_grid :
  @get_coords frozen_clock (qc (-90), qc 90) (qc 0, qc 0) (qc 0, qc 2)
    (qc 90) (qc 90) "h" = Ok coarse_grid.
Proof. vm_compute. reflexivity. Qed.


Lemma get_coords_lon_lat_witness :
  @get_coords frozen_clock (qc (-90), qc 90) (qc 0, qc 0) (qc 0, qc 2)
    (qc 90) (qc 90) "h" = Ok coarse_grid ∧
  ∃ xs ys,
    indexes coarse_grid "x" = Ok xs ∧ indexes coarse_grid "y" = Ok ys ∧
    coords coarse_grid !! "lon" = Some {| c_dim := "x"; c_values := xs |} ∧
    coords coarse_grid !! "lat" = Some {| c_dim := "y"; c_values := ys |} ∧
    data_vars coarse_grid = [] ∧ attrs coarse_grid = [].
Proof.
  split; [apply get_coords_coarse_grid|].
  apply (@get_coords_lon_lat frozen_clock (qc (-90), qc 90) (qc 0, qc 0)
           (qc 0, qc 2) (qc 90) (qc 90) "h").
  apply get_coords_coarse_grid.
Defined.

Lemma maybe_swap_spatial_dims_north_up :
  maybe_swap_spatial_dims north_up "x" "y" = Ok north_up_flipped.
Proof. vm_compute. reflexivity. Qed.

Lemma maybe_swap_spatial_dims_idempotent_witness :
  maybe_swap_spatial_dims north_up "x" "y" = Ok north_up_flipped ∧
  maybe_swap_spatial_dims north_up_flipped "x" "y" = Ok north_up_flipped.
Proof.
  split; [apply maybe_swap_spatial_dims_north_up|].
  apply (maybe_swap_spatial_dims_idempotent north_up).
  apply maybe_swap_spatial_dims_north_up.
Defined.

Lemma maybe_swap_spatial_dims_preserves_witness :
  maybe_swap_spatial_dims north_up "x" "y" = Ok north_up_flipped ∧
  (ds_kind north_up_flipped = ds_kind north_up ∧ attrs north_up_flipped = attrs north_up ∧
   (data_vars north_up_flipped).*1 = (data_vars north_up).*1 ∧
   da_dims <$> (data_vars north_up_flipped).*2 = da_dims <$> (data_vars north_up).*2 ∧
   da_dtype <$> (data_vars north_up_flipped).*2 = da_dtype <$> (data_vars north_up).*2 ∧
   (∀ name, coords north_up !! name = None → coords north_up_flipped !! name = None) ∧
   (∀ name c, coords north_up !! name = Some c →
      ∃ c', coords north_up_flipped !! name = Some c' ∧ c_dim c' = c_dim c ∧
            c_values c' ≡ₚ c_values c)).
Proof.
  split; [apply maybe_swap_spatial_dims_north_up|].
  apply (maybe_swap_spatial_dims_preserves north_up "x" "y").
  apply maybe_swap_spatial_dims_north_up.
Defined.

Lemma get_coords_maybe_swap_witness :
  (0 < qc 90 ∧ 0 < qc 90 ∧
   @get_coords frozen_clock (qc (-90), qc 90) (qc 0, qc 0) (qc 0, qc 2)
     (qc 90) (qc 90) "h" = Ok coarse_grid) ∧
  ∃ xs ys,
    indexes coarse_grid "x" = Ok xs ∧ indexes coarse_grid "y" = Ok ys ∧
    maybe_swap_spatial_dims coarse_grid "x" "y" =
    if decide (xs ≠ [] ∧ ys ≠ []) then Ok coarse_grid else Raise IndexError.
Proof.
  split; [split; [reflexivity|split; [reflexivity|apply get_coords_coarse_grid]]|].
  apply (@get_coords_maybe_swap frozen_clock (qc (-90), qc 90) (qc 0, qc 0)
           (qc 0, qc 2) (qc 90) (qc 90) "h");
    [reflexivity|reflexivity|apply get_coords_coarse_grid].
Defined.


Lemma regrid_single_label_witness :
  (indexes single_column (ix_name target_x) = Ok [qc 0]%list ∧
   indexes single_column (ix_name target_y) = Ok [qc 0; qc 1] ∧
   [qc 0]%list ≠ [] ∧ [qc 0; qc 1] ≠ [] ∧
   (length [qc 0]%list = 1%nat ∨ length [qc 0; qc 1] = 1%nat)) ∧
  @regrid same_grid_rasterio single_column target_x target_y no_kwargs
  = Raise ZeroDivisionError.
Proof.
  split; [split_conj; [by vm_compute|by vm_compute|done|done|by left]|].
  apply (@regrid_single_label same_grid_rasterio single_column target_x target_y
           no_kwargs [qc 0]%list [qc 0; qc 1]);
    [by vm_compute|by vm_compute|done|done|by left].
Defined.

Lemma regrid_no_variables_witness :
  (ix_name target_x ≠ ix_name target_y ∧
   indexes (grid2x2 [qc 0; qc 1] [qc 0; qc 1] []) (ix_name target_x)
   = Ok [qc 0; qc 1] ∧
   indexes (grid2x2 [qc 0; qc 1] [qc 0; qc 1] []) (ix_name target_y)
   = Ok [qc 0; qc 1] ∧
   (2 ≤ length [qc 0; qc 1])%nat ∧
   (2 ≤ length (ix_values target_x))%nat ∧
   (2 ≤ length (ix_values target_y))%nat ∧
   data_vars (grid2x2 [qc 0; qc 1] [qc 0; qc 1] []) = []) ∧
  @regrid same_grid_rasterio (grid2x2 [qc 0; qc 1] [qc 0; qc 1] [])
    target_x target_y no_kwargs
  = Raise AssertionError.
Proof.
  split; [split_conj; [done|by vm_compute|by vm_compute|simpl; lia..|done]|].
  apply (@regrid_no_variables same_grid_rasterio
           (grid2x2 [qc 0; qc 1] [qc 0; qc 1] []) target_x target_y no_kwargs
           [qc 0; qc 1] [qc 0; qc 1]);
    [done|by vm_compute|by vm_compute|simpl; lia..|done].
Defined.

Lemma regrid_missing_dim_witness :
  (ix_name target_x ≠ ix_name target_y ∧
   indexes with_profile (ix_name target_x) = Ok [qc 0; qc 1] ∧
   indexes with_profile (ix_name target_y) = Ok [qc 0; qc 1] ∧
   (2 ≤ length [qc 0; qc 1])%nat ∧
   (2 ≤ length (ix_values target_x))%nat ∧
   (2 ≤ length (ix_values target_y))%nat ∧
   size (list_to_set (da_dtype <$> (data_vars with_profile).*2) : gset string)
   = 1%nat ∧
   ∃ v : string * DataArray,
     v ∈ data_vars with_profile ∧
     ¬ (ix_name target_y ∈ da_dims v.2 ∧ ix_name target_x ∈ da_dims v.2)) ∧
  @regrid same_grid_rasterio with_profile target_x target_y no_kwargs
  = Raise ValueError.
Proof.
  assert (∃ v : string * DataArray,
            v ∈ data_vars with_profile ∧
            ¬ (ix_name target_y ∈ da_dims v.2 ∧ ix_name target_x ∈ da_dims v.2))
    as Hv.
  { eexists. split; [by left|]. simpl. intros [_ Hx].
    apply elem_of_cons in Hx as [?|Hx%elem_of_nil]; done. }
  split;
    [split_conj; [done|by vm_compute|by vm_compute|simpl; lia..|by vm_compute|done]|].
  apply (@regrid_missing_dim same_grid_rasterio with_profile target_x target_y
           no_kwargs [qc 0; qc 1] [qc 0; qc 1]);
    [done|by vm_compute|by vm_compute|simpl; lia..|by vm_compute|done].
Defined.

Lemma regrid_same_dtypes :
  @regrid same_grid_rasterio same_dtypes target_x target_y no_kwargs
  = Ok same_dtypes.
Proof. vm_compute. reflexivity. Qed.

Lemma regrid_output_coords_witness :
  @regrid same_grid_rasterio same_dtypes target_x target_y no_kwargs
  = Ok same_dtypes ∧
  (indexes same_dtypes (ix_name target_x) = Ok (ix_values target_x) ∧
   (ix_name target_x ≠ ix_name target_y →
    indexes same_dtypes (ix_name target_y) = Ok (ix_values target_y)) ∧
   attrs same_dtypes = attrs same_dtypes ∧
   ds_kind same_dtypes = ds_kind same_dtypes ∧
   (∀ name c,
      name ≠ ix_name target_x → name ≠ ix_name target_y →
      (coords same_dtypes !! name = Some c ↔
       coords same_dtypes !! name = Some c ∧
       c_dim c ≠ ix_name target_x ∧ c_dim c ≠ ix_name target_y))).
Proof.
  split; [apply regrid_same_dtypes|].
  apply (@regrid_output_coords same_grid_rasterio same_dtypes target_x target_y
           no_kwargs same_dtypes).
  apply regrid_same_dtypes.
Defined.

Lemma regrid_output_variables_witness :
  @regrid same_grid_rasterio same_dtypes target_x target_y no_kwargs
  = Ok same_dtypes ∧
  Forall2 (λ v v' : string * DataArray,
             v'.1 = v.1 ∧ da_dtype v'.2 = da_dtype v.2 ∧
             da_dims v'.2 =
               filter (λ d, d ≠ ix_name target_y ∧ d ≠ ix_name target_x)
                      (da_dims v.2)
               ++ [ix_name target_y; ix_name target_x] ∧
             ix_name target_y ∈ da_dims v.2 ∧ ix_name target_x ∈ da_dims v.2)
          (data_vars same_dtypes) (data_vars same_dtypes).
Proof.
  split; [apply regrid_same_dtypes|].
  apply (@regrid_output_variables same_grid_rasterio same_dtypes target_x
           target_y no_kwargs same_dtypes).
  apply regrid_same_dtypes.
Defined.

Lemma reproject_shapes_compose_witness :
  (@from_crs (unit_pyproj degrees_minutes) 4326 1 = Ok to_minutes ∧
   @from_crs (unit_pyproj degrees_minutes) 1 4326 = Ok to_degrees ∧
   shapes_wf regions) ∧
  ∃ there onward,
    @reproject_shapes (unit_pyproj degrees_minutes) regions 4326 1 = Ok there ∧
    @reproject_shapes (unit_pyproj degrees_minutes) there 1 4326 = Ok onward ∧
    shapes_container onward = shapes_container regions ∧
    shapes_labels onward = shapes_labels regions ∧
    shapes_geoms onward = transform (to_degrees ∘ to_minutes) <$> shapes_geoms regions.
Proof.
  assert (shapes_wf regions) as Hwf
    by (simpl; apply (bool_decide_unpack _); by vm_compute).
  split; [split; [reflexivity|split; [reflexivity|done]]|].
  apply (@reproject_shapes_compose (unit_pyproj degrees_minutes) regions
           4326 1 4326 to_minutes to_degrees);
    [reflexivity|reflexivity|done].
Defined.

Lemma compute_indicatormatrix_half_one_half :
  @compute_indicatormatrix (unit_pyproj degrees_minutes) rect_geos scan_tree
    unit_squares (Shapes (PyList [wide_square])) 4326 4326
  = Ok half_one_half.
Proof. apply (bool_decide_unpack _). by vm_compute. Qed.

Lemma indicator_entries_sound_witness :
  (@tree_query_correct scan_tree ∧
   @reproject_shapes (unit_pyproj degrees_minutes)
     (dest_shapes (Shapes (PyList [wide_square]))) 4326 4326
   = Ok (PyList [wide_square]) ∧
   @compute_indicatormatrix (unit_pyproj degrees_minutes) rect_geos scan_tree
     unit_squares (Shapes (PyList [wide_square])) 4326 4326
   = Ok half_one_half) ∧
  (lil_shape half_one_half
   = (length (iter_shapes (PyList [wide_square])), length unit_squares) ∧
   ∀ i j v, lil_entries half_one_half !! (i, j) = Some v →
     ∃ d o,
       iter_shapes (PyList [wide_square]) !! i = Some (VGeom d) ∧
       o ∈ unit_squares ∧
       id_index unit_squares !! obj_id o = Some j ∧
       @intersects rect_geos (obj_geom o) d = true ∧
       @area rect_geos (obj_geom o) ≠ 0 ∧
       v = @area_share rect_geos d o ∧
       (NoDup (obj_id <$> unit_squares) → unit_squares !! j = Some o)).
Proof.
  split;
    [split_conj;
     [apply scan_tree_correct|apply reproject_wide_square
     |apply compute_indicatormatrix_half_one_half]|].
  apply (@indicator_entries_sound (unit_pyproj degrees_minutes) rect_geos
           scan_tree unit_squares (Shapes (PyList [wide_square])) 4326 4326
           (PyList [wide_square]) half_one_half);
    [apply scan_tree_correct|apply reproject_wide_square
    |apply compute_indicatormatrix_half_one_half].
Defined.

Lemma indicator_entries_complete_witness :
  (@tree_query_correct scan_tree ∧ @intersects_in_envelopes rect_geos ∧
   NoDup (obj_id <$> unit_squares) ∧
   @reproject_shapes (unit_pyproj degrees_minutes)
     (dest_shapes (Shapes (PyList [wide_square]))) 4326 4326
   = Ok (PyList [wide_square]) ∧
   @compute_indicatormatrix (unit_pyproj degrees_minutes) rect_geos scan_tree
     unit_squares (Shapes (PyList [wide_square])) 4326 4326
   = Ok half_one_half ∧
   iter_shapes (PyList [wide_square]) !! 0%nat = Some (VGeom wide_square) ∧
   unit_squares !! 2%nat = Some {| obj_id := 3; obj_geom := rectangle 2 3 0 1 |} ∧
   @intersects rect_geos (rectangle 2 3 0 1) wide_square = true ∧
   @area_share rect_geos wide_square
     {| obj_id := 3; obj_geom := rectangle 2 3 0 1 |} ≠ 0) ∧
  lil_entries half_one_half !! (0%nat, 2%nat)
  = Some (@area_share rect_geos wide_square
            {| obj_id := 3; obj_geom := rectangle 2 3 0 1 |}).
Proof.
  assert (NoDup (obj_id <$> unit_squares)) as Hids
    by (apply (bool_decide_unpack _); by vm_compute).
  assert (@area_share rect_geos wide_square
            {| obj_id := 3; obj_geom := rectangle 2 3 0 1 |} ≠ 0) as Hshare
    by (apply (bool_decide_unpack _); by vm_compute).
  split;
    [split_conj;
     [apply scan_tree_correct|apply rect_geos_intersects_in_envelopes|done
     |apply reproject_wide_square|apply compute_indicatormatrix_half_one_half
     |reflexivity|reflexivity|by vm_compute|done]|].
  apply (@indicator_entries_complete (unit_pyproj degrees_minutes) rect_geos
           scan_tree unit_squares (Shapes (PyList [wide_square])) 4326 4326
           (PyList [wide_square]) half_one_half 0 2 wide_square
           {| obj_id := 3; obj_geom := rectangle 2 3 0 1 |});
    [apply scan_tree_correct|apply rect_geos_intersects_in_envelopes|done
    |apply reproject_wide_square|apply compute_indicatormatrix_half_one_half
    |reflexivity|reflexivity|by vm_compute|done].
Defined.

Lemma reproject_far_square :
  @reproject_shapes (unit_pyproj degrees_minutes)
    (dest_shapes (Shapes (PyList [far_square]))) 4326 4326
  = Ok (PyList [far_square]).
Proof. apply (bool_decide_unpack _). by vm_compute. Qed.

Lemma indicator_disjoint_empty_witness :
  (@tree_query_correct scan_tree ∧
   @reproject_shapes (unit_pyproj degrees_minutes)
     (dest_shapes (Shapes (PyList [far_square]))) 4326 4326
   = Ok (PyList [far_square]) ∧
   shapes_container (PyList [far_square]) ≠ Mapping ∧
   ∀ o d, o ∈ unit_squares → VGeom d ∈ iter_shapes (PyList [far_square]) →
          @intersects rect_geos (obj_geom o) d = false) ∧
  @compute_indicatormatrix (unit_pyproj degrees_minutes) rect_geos scan_tree
    unit_squares (Shapes (PyList [far_square])) 4326 4326
  = Ok {| lil_shape := (length (iter_shapes (PyList [far_square])),
                        length unit_squares);
          lil_entries := ∅ |}.
Proof.
  assert (∀ o d, o ∈ unit_squares → VGeom d ∈ iter_shapes (PyList [far_square]) →
                 @intersects rect_geos (obj_geom o) d = false) as Hfar.
  { intros o d Ho Hd. simpl in Hd.
    apply elem_of_cons in Hd as [[= ->]|Hd%elem_of_nil]; [|done].
    unfold unit_squares in Ho.
    repeat (apply elem_of_cons in Ho as [->|Ho]);
      [..|by apply elem_of_nil in Ho]; by vm_compute. }
  split;
    [split_conj; [apply scan_tree_correct|apply reproject_far_square|done|done]|].
  apply (@indicator_disjoint_empty (unit_pyproj degrees_minutes) rect_geos
           scan_tree unit_squares (Shapes (PyList [far_square])) 4326 4326
           (PyList [far_square]));
    [apply scan_tree_correct|apply reproject_far_square|done|done].
Defined.


Lemma grid_cell_areas_shape_mismatch_witness :
  (cutout_crs km_cells_two_rows ≠ 4326%Z ∧
   @from_crs (unit_pyproj metres_kilometres) (cutout_crs km_cells_two_rows) 3035
   = Ok to_metres ∧
   length (cutout_grid_cells km_cells_two_rows)
   ≠ ((cutout_shape km_cells_two_rows).1 * (cutout_shape km_cells_two_rows).2)%nat) ∧
  @grid_cell_areas (unit_pyproj metres_kilometres) rect_geos series_ufuncs
    km_cells_two_rows
  = Raise ValueError.
Proof.
  split; [split_conj; [done|reflexivity|simpl; lia]|].
  apply (@grid_cell_areas_shape_mismatch (unit_pyproj metres_kilometres)
           rect_geos series_ufuncs km_cells_two_rows to_metres);
    [done|reflexivity|simpl; lia].
Defined.

Lemma spdiag_diagonal_witness :
  (Z.of_nat (length [qc 2; qc 3]) < 2 ^ 31)%Z ∧
  ∃ m, spdiag [qc 2; qc 3] = Ok m ∧
       csr_shape m = (length [qc 2; qc 3], length [qc 2; qc 3]) ∧
       ∀ i, csr_row m i =
            match [qc 2; qc 3] !! i with
            | Some x => [(Z.of_nat i, x)]%list
            | None => []
            end.
Proof.
  split; [reflexivity|].
  apply (spdiag_diagonal [qc 2; qc 3]). reflexivity.
Defined.

Lemma spdiag_dot_witness :
  ((Z.of_nat (length [qc 2; qc 3]) < 2 ^ 31)%Z ∧
   spdiag [qc 2; qc 3] = Ok diag_2_3 ∧
   length [qc 5; qc 7] = length [qc 2; qc 3]) ∧
  csr_dot diag_2_3 [qc 5; qc 7] = Ok (zip_with Qcmult [qc 2; qc 3] [qc 5; qc 7]).
Proof.
  split; [split_conj; reflexivity|].
  apply (spdiag_dot [qc 2; qc 3] [qc 5; qc 7] diag_2_3); reflexivity.
Defined.
